(** * The chaos/formed particle tree: a shallow embedding over the reals

    The animation code of the repository (math.ts, Ornaments.tsx,
    Foliage.tsx, Trunk.tsx, Star.tsx, Leaves, Lights, Ribbon, Snow,
    Polaroids, Scene and App) computes with JavaScript numbers.  They are
    embedded here as mathematical reals: [Math.exp], [Math.sin], [Math.cos],
    [Math.sqrt] and [Math.acos] are the functions of the Standard Library's
    real analysis, and rounding is not modelled.  [Math.random()] is a
    stream of draws that is threaded through the code in call order. *)

From Stdlib Require Import Reals Lra Lia List String Bool Arith.
From stdpp Require Import base gmap strings.
Import ListNotations.

Local Open Scope R_scope.

(** ** Math.random(): a stream of draws and the position of the next one *)

Record RandState := mkRand { draws : nat -> R; next : nat }.

Definition Rand (A : Type) : Type := RandState -> A * RandState.

#[global] Instance rand_ret : MRet Rand := fun A (a : A) s => (a, s).

#[global] Instance rand_bind : MBind Rand :=
  fun A B (k : A -> Rand B) (m : Rand A) s => let (a, s') := m s in k a s'.

(** [Math.random()] *)
Definition random : Rand R :=
  fun s => (draws s (next s), mkRand (draws s) (S (next s))).

(** Every draw of the stream lies in [0, 1), as [Math.random()] promises. *)
Definition unit_draws (s : RandState) : Prop :=
  forall n, 0 <= draws s n < 1.

(** ** three.js: MathUtils, Vector3 and the GLSL built-ins the shaders use *)

Module MathUtils.

(** [lerp(x, y, t) = (1 - t) * x + t * y] *)
Definition lerp (x y t : R) : R := (1 - t) * x + t * y.

(** [damp(x, y, lambda, dt) = lerp(x, y, 1 - Math.exp(-lambda * dt))] *)
Definition damp (x y lambda dt : R) : R :=
  lerp x y (1 - exp (- lambda * dt)).

End MathUtils.

Record Vector3 := vec3 { vx : R; vy : R; vz : R }.

Module Vec.

Definition add (a b : Vector3) : Vector3 :=
  vec3 (vx a + vx b) (vy a + vy b) (vz a + vz b).

Definition multiplyScalar (a : Vector3) (s : R) : Vector3 :=
  vec3 (vx a * s) (vy a * s) (vz a * s).

(** [length() = Math.sqrt(x*x + y*y + z*z)] *)
Definition length (a : Vector3) : R :=
  sqrt (vx a * vx a + vy a * vy a + vz a * vz a).

(** [normalize() = divideScalar(length() || 1)] *)
Definition normalize (a : Vector3) : Vector3 :=
  let l := length a in
  let d := if Req_dec_T l 0 then 1 else l in
  multiplyScalar a (/ d).

(** [lerpVectors(v1, v2, alpha)]: [v1 + (v2 - v1) * alpha], per axis *)
Definition lerpVectors (v1 v2 : Vector3) (alpha : R) : Vector3 :=
  vec3 (vx v1 + (vx v2 - vx v1) * alpha)
       (vy v1 + (vy v2 - vy v1) * alpha)
       (vz v1 + (vz v2 - vz v1) * alpha).

End Vec.

Module GLSL.

(** [mix(x, y, a) = x * (1 - a) + y * a], per axis *)
Definition mix (a b : Vector3) (t : R) : Vector3 :=
  vec3 (vx a * (1 - t) + vx b * t)
       (vy a * (1 - t) + vy b * t)
       (vz a * (1 - t) + vz b * t).

Definition clamp (x lo hi : R) : R := Rmin (Rmax x lo) hi.

(** [smoothstep(e0, e1, x)] *)
Definition smoothstep (e0 e1 x : R) : R :=
  let t := clamp ((x - e0) / (e1 - e0)) 0 1 in
  t * t * (3 - 2 * t).

End GLSL.

(** [Math.cbrt]: the real cube root, odd and zero at zero. *)
Definition cbrt (x : R) : R :=
  if Rlt_dec 0 x then Rpower x (/ 3)
  else if Rlt_dec x 0 then - Rpower (- x) (/ 3)
  else 0.

(** [Math.pow(b, 3)] and GLSL [pow(b, 3.0)] *)
Definition cube (b : R) : R := b * b * b.

(** The cubic ease-out every component applies to its progress:
    [1 - Math.pow(1 - t, 3)]. *)
Definition easeOutCubic (t : R) : R := 1 - cube (1 - t).

(** ** utils/math.ts *)

Module math.

(** The body of [randomSpherePoint] at the three draws it makes, in the
    order it makes them. *)
Definition spherePointAt (radius u v w : R) : Vector3 :=
  let theta := 2 * PI * u in
  let phi := acos (2 * v - 1) in
  let r := cbrt w * radius in
  let sinPhi := sin phi in
  let x := r * sinPhi * cos theta in
  let y := r * sinPhi * sin theta in
  let z := r * cos phi in
  vec3 x y z.

Definition randomSpherePoint (radius : R) : Rand Vector3 :=
  u ← random;
  v ← random;
  w ← random;
  mret (spherePointAt radius u v w).

Definition getTreePosition (i count : nat) (radiusBase height yOffset : R)
  : Vector3 :=
  let p := INR i / INR count in
  let angle := p * PI * 40 in
  let y := height * p in
  let r := radiusBase * (1 - p) in
  let x := r * cos angle in
  let z := r * sin angle in
  vec3 x (y + yOffset) z.

(** The body of [getTreeSurfacePosition] at its two draws. *)
Definition surfacePositionAt (radiusBase height yOffset u u2 : R) : Vector3 :=
  let hRatio := 1 - sqrt u in
  let y := height * hRatio in
  let r := radiusBase * (1 - hRatio) in
  let theta := u2 * PI * 2 in
  let x := r * cos theta in
  let z := r * sin theta in
  vec3 x (y + yOffset) z.

Definition getTreeSurfacePosition (radiusBase height yOffset : R)
  : Rand Vector3 :=
  u ← random;
  u2 ← random;
  mret (surfacePositionAt radiusBase height yOffset u u2).

(** Distance of a point from the vertical axis of the tree. *)
Definition horizontalDistance (p : Vector3) : R :=
  sqrt (vx p * vx p + vz p * vz p).

End math.

(** ** types.ts *)

Inductive TreeMode := CHAOS | FORMED.

(** The string value of an enum member, which is what the components get
    as their [mode: string] prop. *)
Definition modeString (m : TreeMode) : string :=
  match m with CHAOS => "CHAOS" | FORMED => "FORMED" end.

Inductive Theme := CLASSIC | SNOWY | ICY.

(** [mode === TreeMode.FORMED ? 1 : 0], the attractor of the progress. *)
Definition targetOf (mode : string) : R :=
  if String.eqb mode "FORMED" then 1 else 0.

(** [Math.floor] *)
Definition floor (x : R) : Z := Int_part x.

(** ** components/Ornaments.tsx *)

Module Ornaments.

Inductive OrnamentType :=
  box | sphere | triangle | cylinder | cone | dodecahedron | flat_box | star.

Definition is_star (t : OrnamentType) : bool :=
  match t with star => true | _ => false end.

Record Props := mkProps {
  mode : string;
  count : nat;
  type : OrnamentType;
  colorPalette : list string;
  scaleRange : R * R;
  weight : R;
  emissive : bool;
  emissiveIntensity : R;
  geometryScale : R * R * R
}.

Record Datum := mkDatum {
  chaos : Vector3;
  target : Vector3;
  color : option string;
  scale : R;
  phase : R;
  rotSpeed : R;
  wobbleSpeed : R
}.

(** [scale] of one instance at its draw *)
Definition scaleAt (scaleRange : R * R) (r : R) : R :=
  r * (snd scaleRange - fst scaleRange) + fst scaleRange.

(** One iteration of the [map] callback of [data]. *)
Definition datum (colorPalette : list string) (scaleRange : R * R)
  : Rand Datum :=
  chaos ← math.randomSpherePoint 25;
  target ← math.getTreeSurfacePosition 4.0 9.5 (-5);
  let pushFactor := 0.25 in
  let horizontalDir := Vec.normalize (vec3 (vx target) 0 (vz target)) in
  let target := Vec.add target (Vec.multiplyScalar horizontalDir pushFactor) in
  rc ← random;
  let colorHex :=
    nth_error colorPalette
      (Z.to_nat (floor (rc * INR (List.length colorPalette)))) in
  rs ← random;
  let scale := scaleAt scaleRange rs in
  rp ← random;
  rr ← random;
  rw ← random;
  mret (mkDatum chaos target colorHex scale
          (rp * PI * 2) ((rr - 0.5) * 2) (1 + rw)).

(** [new Array(count).fill(0).map(...)] *)
Fixpoint data (count : nat) (colorPalette : list string)
    (scaleRange : R * R) : Rand (list Datum) :=
  match count with
  | O => mret []
  | S n =>
      d ← datum colorPalette scaleRange;
      ds ← data n colorPalette scaleRange;
      mret (d :: ds)
  end.

(** The [data] memo of a field with the given props. *)
Definition field (p : Props) : Rand (list Datum) :=
  data (count p) (colorPalette p) (scaleRange p).

(** The progress update of [useFrame]. *)
Definition tick (weight : R) (mode : string) (delta progress : R) : R :=
  let target := targetOf mode in
  let dampSpeed := 1.0 / weight in
  MathUtils.damp progress target dampSpeed delta.

(** The position written into the instance matrix. *)
Definition position (d : Datum) (time t : R) : Vector3 :=
  let easedT := easeOutCubic t in
  let pos := Vec.lerpVectors (chaos d) (target d) easedT in
  if Rlt_dec 0.8 t then
    let wobble := sin (time * 2 + phase d) * 0.05 in
    vec3 (vx pos) (vy pos + wobble) (vz pos)
  else pos.

(** The Euler angles written into the instance matrix. *)
Definition rotation (d : Datum) (time t : R) : Vector3 :=
  let easedT := easeOutCubic t in
  let chaosRot := time * rotSpeed d in
  let formedRotX := sin (time * wobbleSpeed d + phase d) * 0.15 in
  let formedRotY := time * 0.5 + phase d in
  vec3 (MathUtils.lerp chaosRot formedRotX easedT)
       (MathUtils.lerp chaosRot formedRotY easedT)
       (MathUtils.lerp chaosRot 0 easedT).

(** "Pulse effect for lights or stars" *)
Definition scaleMult (p : Props) (d : Datum) (time t : R) : R :=
  if (emissive p || is_star (type p))%bool then
    if Rlt_dec 0.9 t then 1.0 + sin (time * 3 + phase d) * 0.2 else 1.0
  else 1.0.

(** [finalScale] at a given pulse factor. *)
Definition finalScaleWith (d : Datum) (t mult : R) : R :=
  scale d * (0.8 + 0.2 * easeOutCubic t) * mult.

Definition finalScale (p : Props) (d : Datum) (time t : R) : R :=
  finalScaleWith d t (scaleMult p d time t).

(** The progress-dependent modulation of the scale, [0.8 + 0.2 * easedT]. *)
Definition progressPulse (t : R) : R := 0.8 + 0.2 * easeOutCubic t.

(** The three factors of [finalScale]: the base scale of the instance,
    the modulation that follows the progress and the periodic one. *)
Definition modulatedScale (d : Datum) (byProgress periodic : R) : R :=
  scale d * byProgress * periodic.

(** The scale written into the instance matrix, per axis, at given values
    of the two modulations. *)
Definition renderedModulated (p : Props) (d : Datum)
    (byProgress periodic : R) : Vector3 :=
  let '(gx, gy, gz) := geometryScale p in
  let s := modulatedScale d byProgress periodic in
  vec3 (s * gx) (s * gy) (s * gz).

(** The scale the initial setup writes into the instance matrix,
    [tempObject.scale.setScalar(d.scale)]. *)
Definition setupScale (d : Datum) : Vector3 :=
  vec3 (scale d) (scale d) (scale d).

(** The scale written into the instance matrix, per axis. *)
Definition renderedScaleWith (p : Props) (d : Datum) (t mult : R) : Vector3 :=
  let '(gx, gy, gz) := geometryScale p in
  let s := finalScaleWith d t mult in
  vec3 (s * gx) (s * gy) (s * gz).

Definition renderedScale (p : Props) (d : Datum) (time t : R) : Vector3 :=
  renderedScaleWith p d t (scaleMult p d time t).

End Ornaments.

(** ** components/Trunk.tsx, Leaves.tsx, Ribbon.tsx, Star.tsx:
    progress by [damp], position by [lerpVectors] *)

Module Trunk.
Definition tick (mode : string) (delta progress : R) : R :=
  MathUtils.damp progress (targetOf mode) 1.2 delta.
Definition position (chaos target : Vector3) (t : R) : Vector3 :=
  Vec.lerpVectors chaos target (easeOutCubic t).
Record Datum := mkDatum {
  chaos : Vector3;
  target : Vector3;
  scale : R;
  rotationSpeed : R
}.

(** One iteration of the [map] callback of [data]. *)
Definition datum : Rand Datum :=
  chaos ← math.randomSpherePoint 8;
  rh ← random;
  let h := (rh * 10) - 6 in
  let progressH := (h + 6) / 10 in
  let maxR := 0.8 * (1 - progressH * 0.7) in
  rr ← random;
  let r := sqrt rr * maxR in
  rt ← random;
  let theta := rt * PI * 2 in
  let target := vec3 (r * cos theta) h (r * sin theta) in
  rs ← random;
  rv ← random;
  mret (mkDatum chaos target (rs * 0.4 + 0.3) rv).

(** The rotation of the one [tempObject] all instances share: the x and z
    angles it holds when instance [i] is reached, and what the loop body
    leaves in them. *)
Definition rotate (t delta time : R) (i : nat) (d : Datum) (rot : R * R)
  : R * R :=
  if Rlt_dec t 0.2 then
    (fst rot + delta * rotationSpeed d, snd rot + delta * rotationSpeed d)
  else
    let targetRotX := sin (time + INR i) * 0.05 in
    let targetRotZ := cos (time + INR i) * 0.05 in
    (MathUtils.lerp (fst rot) targetRotX (delta * 2),
     MathUtils.lerp (snd rot) targetRotZ (delta * 2)).

(** [data.forEach((d, i) => ...)] of one frame, from instance [i] on: the
    angles written into each instance matrix, and the angles the shared
    object is left with. *)
Fixpoint rotations (t delta time : R) (i : nat) (ds : list Datum)
    (rot : R * R) : list (R * R) * (R * R) :=
  match ds with
  | [] => ([], rot)
  | d :: rest =>
      let rot' := rotate t delta time i d rot in
      let (written, final) := rotations t delta time (S i) rest rot' in
      (rot' :: written, final)
  end.

End Trunk.

Module Leaves.
Definition tick (mode : string) (delta progress : R) : R :=
  MathUtils.damp progress (targetOf mode) 1.5 delta.
Definition position (chaos target : Vector3) (t : R) : Vector3 :=
  Vec.lerpVectors chaos target (easeOutCubic t).
End Leaves.

Module Ribbon.
Definition tick (mode : string) (delta progress : R) : R :=
  MathUtils.damp progress (targetOf mode) 1.0 delta.
Definition position (chaos target : Vector3) (t : R) : Vector3 :=
  Vec.lerpVectors chaos target (easeOutCubic t).
(** The target of segment [i] of [count]: a point of the helix. *)
Definition targetAt (i count : nat) : Vector3 :=
  let p := INR i / INR count in
  let height := 11.0 in
  let radiusBase := 5.0 in
  let turns := 4.5 in
  let angle := p * PI * 2 * turns in
  let y := (1 - p) * height - 5.5 in
  let currentRadius := radiusBase * (1 - (y + 5.5) / height) + 0.5 in
  let x := currentRadius * cos angle in
  let z := currentRadius * sin angle in
  vec3 x y z.

(** The point segment [i] looks at. *)
Definition lookAtTargetAt (i count : nat) : Vector3 :=
  let height := 11.0 in
  let radiusBase := 5.0 in
  let turns := 4.5 in
  let nextP := INR (i + 1) / INR count in
  let nextAngle := nextP * PI * 2 * turns in
  let nextY := (1 - nextP) * height - 5.5 in
  let nextR := radiusBase * (1 - (nextY + 5.5) / height) + 0.5 in
  let nextX := nextR * cos nextAngle in
  let nextZ := nextR * sin nextAngle in
  vec3 nextX nextY nextZ.

(** The scale of segment [i]: [scale.set(1, 1, scale)]. *)
Definition scaleAt (i : nat) (time : R) : Vector3 :=
  let scale := 1.0 + sin (time * 3 + INR i * 0.05) * 0.1 in
  vec3 1 1 scale.

End Ribbon.

Module Star.
Definition targetPos : Vector3 := vec3 0 5.2 0.
Definition tick (mode : string) (delta progress : R) : R :=
  MathUtils.damp progress (targetOf mode) 0.8 delta.
Definition position (chaosPos : Vector3) (t : R) : Vector3 :=
  Vec.lerpVectors chaosPos targetPos (easeOutCubic t).
(** "Breathing scale effect" *)
Definition scale (time t : R) : R :=
  let easedT := easeOutCubic t in
  let scaleBase := 1.0 in
  let pulse := sin (time * 3) * 0.05 in
  (scaleBase + pulse) * (0.4 + 0.6 * easedT).

End Star.

(** ** components/Foliage.tsx, Snow.tsx, Lights.tsx: progress by [lerp] on
    the [uProgress] uniform, position in the vertex shader *)

Module Foliage.
(** [useFrame((state) => ...)]: the callback does not take [delta]. *)
Definition tick (mode : string) (delta progress : R) : R :=
  let targetProgress := targetOf mode in
  MathUtils.lerp progress targetProgress 0.02.

(** [pos] of the vertex shader, before the camera transform. *)
Definition position (aChaos aTarget : Vector3) (aRandom uTime uProgress : R)
  : Vector3 :=
  let t := easeOutCubic uProgress in
  let pos := GLSL.mix aChaos aTarget t in
  vec3 (vx pos)
       (vy pos + sin (uTime * 0.5 + aRandom * 10.0) * 0.1 * t)
       (vz pos).
Record Point := mkPoint { aChaos : Vector3; aTarget : Vector3; aRandom : R }.

(** One iteration of the loop that fills the attribute buffers. *)
Definition point (i count : nat) (radiusBase : R) : Rand Point :=
  c ← math.randomSpherePoint 25;
  let tBase := math.getTreePosition i count radiusBase 10 (-5) in
  let jitterAmount := 0.8 in
  jx ← random;
  jy ← random;
  jz ← random;
  let jitter := vec3 ((jx - 0.5) * jitterAmount) ((jy - 0.5) * jitterAmount)
                  ((jz - 0.5) * jitterAmount) in
  let tBase := Vec.add tBase jitter in
  r ← random;
  mret (mkPoint c tBase r).

(** [vAlpha] of the vertex shader *)
Definition vAlpha (aRandom uTime : R) : R :=
  0.6 + 0.4 * sin (uTime * 2.0 + aRandom * 20.0).

(** [flashIntensity] of the fragment shader *)
Definition flashIntensity (vRandom uTime vProgress : R) : R :=
  let blinkSpeed := 3.0 in
  let blinkPhase := uTime * blinkSpeed + vRandom * 100.0 in
  let blink := sin blinkPhase in
  let flash := GLSL.smoothstep 0.8 1.0 blink in
  flash * (0.4 + 0.6 * vProgress).

End Foliage.

Module Snow.
Definition tick (mode : string) (delta progress : R) : R :=
  let targetProgress := targetOf mode in
  MathUtils.lerp progress targetProgress 0.02.

Definition position (aChaos aTarget : Vector3) (aRandom uTime uProgress : R)
  : Vector3 :=
  let t := easeOutCubic uProgress in
  let pos := GLSL.mix aChaos aTarget t in
  let movementAmp := 1.0 in
  vec3 (vx pos + sin (uTime * 0.5 + aRandom * 10.0) * 0.2 * movementAmp)
       (vy pos + cos (uTime * 0.3 + aRandom * 20.0) * 0.2 * movementAmp)
       (vz pos + sin (uTime * 0.4 + aRandom * 15.0) * 0.2 * movementAmp).
Record Flake := mkFlake {
  aChaos : Vector3; aTarget : Vector3; aRandom : R; aType : R
}.

(** One iteration of the loop that fills the attribute buffers. *)
Definition flake : Rand Flake :=
  cp ← math.randomSpherePoint 30;
  tp ← math.getTreeSurfacePosition 4.6 9.8 (-5);
  ry ← random;
  let tp := vec3 (vx tp) (vy tp + ry * 0.2) (vz tp) in
  r ← random;
  rt ← random;
  mret (mkFlake cp tp r (if Rlt_dec 0.6 rt then 1.0 else 0.0)).

(** [vAlpha] of the vertex shader: the sparkle *)
Definition vAlpha (aType aRandom uTime : R) : R :=
  if Rlt_dec 0.5 aType then 0.5 + 0.5 * sin (uTime * 8.0 + aRandom * 50.0)
  else 1.0.

(** The alpha of the fragment shader at squared distance [r] from the
    centre of the point; [None] where the fragment is discarded. *)
Definition fragmentAlpha (vType vAlpha r : R) : option R :=
  if Rlt_dec 1.0 r then None
  else
    let alpha :=
      if Rlt_dec vType 0.5 then (1.0 - r) * 0.6 * vAlpha
      else (1.0 - cube r) * vAlpha in
    Some (Rmax 0.0 alpha).

End Snow.

Module Lights.
Definition tick (mode : string) (delta progress : R) : R :=
  let targetProg := targetOf mode in
  MathUtils.lerp progress targetProg (delta * 1.0).

Definition position (aChaos aTarget : Vector3) (uProgress : R) : Vector3 :=
  let t := GLSL.smoothstep 0.0 1.0 uProgress in
  let ease := 1.0 - cube (1.0 - t) in
  GLSL.mix aChaos aTarget ease.
Record Light := mkLight {
  aChaos : Vector3; aTarget : Vector3; aPhase : R; aSize : R
}.

(** One iteration of the loop that fills the attribute buffers. *)
Definition light : Rand Light :=
  chaosPt ← math.randomSpherePoint 14;
  targetPt ← math.getTreeSurfacePosition 4.6 9.8 (-5);
  rp ← random;
  rb ← random;
  rs ← random;
  let isBig := if Rlt_dec 0.85 rb then true else false in
  mret (mkLight chaosPt targetPt (rp * PI * 2)
          (if isBig then 50.0 + rs * 20.0 else 15.0 + rs * 8.0)).

(** [gl_PointSize] before the perspective scaling *)
Definition pointSize (aSize aPhase uTime : R) : R :=
  let pulse := 1.0 + 0.3 * sin (uTime * 3.0 + aPhase) in
  aSize * pulse.

Definition vAlpha (aPhase uTime : R) : R :=
  0.8 + 0.2 * sin (uTime * 4.0 + aPhase).

End Lights.

(** ** components/Polaroids.tsx *)

Module Polaroids.

(** The body of the [targetPos] memo. *)
Definition targetPosAt (index total : nat) : Vector3 :=
  let radiusBase := 4.8 in
  let treeHeight := 9.0 in
  let heightRatio := 1 - (INR index / INR (Nat.max total 1)) in
  let randomHeightOffset := (sin (INR index * 12.34) + 1) * 1.0 in
  let yPos := (heightRatio * treeHeight * 0.8) + randomHeightOffset in
  let rAtHeight := Rmax 0.5 (radiusBase * (1 - (yPos / treeHeight))) in
  let angle := (INR index * 0.8) + (INR index * INR index * 0.05) in
  let x := rAtHeight * cos angle in
  let z := rAtHeight * sin angle in
  vec3 x (yPos - 5) z.

(** What React keeps for one mounted [PolaroidItem]: the props of its last
    render, which are also the dependencies of the [targetPos] memo, the
    two memos with an empty dependency list, and the [progress] ref. *)
Record Item := mkItem {
  index : nat;
  total : nat;
  chaosPos : Vector3;
  rotationOffset : R;
  swaySpeed : R;
  targetPos : Vector3;
  progress : R
}.

(** First render of an item: every hook runs its initialiser. *)
Definition mount (i n : nat) : Rand Item :=
  chaosPos ← math.randomSpherePoint 14;
  r1 ← random;
  r2 ← random;
  mret (mkItem i n chaosPos (r1 * PI * 2) (0.5 + r2 * 1.5)
          (targetPosAt i n) 0).

(** Later render of a mounted item: memos with [[]] keep their value, the
    [targetPos] memo runs again when [index] or [total] differ from the
    last render. *)
Definition update (i n : nat) (it : Item) : Item :=
  if decide ((index it, total it) = (i, n)) then it
  else mkItem i n (chaosPos it) (rotationOffset it) (swaySpeed it)
         (targetPosAt i n) (progress it).

(** [urls.map((url, i) => <PolaroidItem key={url} index={i} total=... />)]
    reconciled against the mounted items, which React finds by key. *)
Fixpoint renderItems (urls : list string) (i n : nat)
    (mounted : gmap string Item) : Rand (gmap string Item) :=
  match urls with
  | [] => mret ∅
  | url :: rest =>
      it ← match mounted !! url with
           | Some it => mret (update i n it)
           | None => mount i n
           end;
      m ← renderItems rest (S i) n mounted;
      mret (<[url := it]> m)
  end.

(** [if (!urls || urls.length === 0) return null]: nothing stays mounted. *)
Definition render (urls : list string) (mounted : gmap string Item)
  : Rand (gmap string Item) :=
  match urls with
  | [] => mret ∅
  | _ => renderItems urls 0 (List.length urls) mounted
  end.

(** The [targetPos] memo of an item holds the value of its body at the
    props of the last render. *)
Definition memo_ok (it : Item) : Prop :=
  targetPos it = targetPosAt (index it) (total it).

Definition tick (mode : string) (delta progress : R) : R :=
  MathUtils.damp progress (targetOf mode) 1.2 delta.

Definition position (it : Item) (t : R) : Vector3 :=
  Vec.lerpVectors (chaosPos it) (targetPos it) (easeOutCubic t).

(** [useFrame] of one item: the [progress] ref is the only hook state it
    writes. *)
Definition frame (mode : string) (delta : R) (it : Item) : Item :=
  mkItem (index it) (total it) (chaosPos it) (rotationOffset it)
    (swaySpeed it) (targetPos it) (tick mode delta (progress it)).

(** "Scale Interaction" *)
Definition scale (t : R) : R := 1.0 + sin (t * PI) * 0.1.

End Polaroids.

(** ** components/Scene.tsx *)

Module Scene.

(** The animated component families of the repository. *)
Inductive Component :=
| COrnaments (weight : R)
| CTrunk | CLeaves | CRibbon | CStar | CPolaroid
| CFoliage | CSnow | CLights.

(** The progress update each family runs in its [useFrame]. *)
Definition tick (c : Component) (mode : string) (delta progress : R) : R :=
  match c with
  | COrnaments weight => Ornaments.tick weight mode delta progress
  | CTrunk => Trunk.tick mode delta progress
  | CLeaves => Leaves.tick mode delta progress
  | CRibbon => Ribbon.tick mode delta progress
  | CStar => Star.tick mode delta progress
  | CPolaroid => Polaroids.tick mode delta progress
  | CFoliage => Foliage.tick mode delta progress
  | CSnow => Snow.tick mode delta progress
  | CLights => Lights.tick mode delta progress
  end.

(** [useRef(0)] and [uProgress: { value: 0 }] *)
Definition initialProgress : R := 0.

(** Successive frames at one mode, the elapsed time of each in order. *)
Definition ticks (c : Component) (mode : string) (deltas : list R)
    (progress : R) : R :=
  fold_left (fun p delta => tick c mode delta p) deltas progress.

(** Total elapsed time of a list of frames. *)
Definition elapsed (deltas : list R) : R := fold_right Rplus 0 deltas.

(** The [weight] prop of an ornament field is a positive number. *)
Definition well_configured (c : Component) : Prop :=
  match c with COrnaments weight => 0 < weight | _ => True end.

(** A frame of positive length; for the lights, shorter than a second. *)
Definition frame_ok (c : Component) (delta : R) : Prop :=
  0 < delta /\ match c with CLights => delta < 1 | _ => True end.

(** Whether a render of the component puts its progress back to the initial
    value.  Snow and TreeLights pass [uniforms] to their material as an
    object literal, so every render hands the material a new
    [uProgress: { value: 0 }]; Foliage memoizes its uniforms on the colour
    and the size, and the mesh components keep their progress in a ref. *)
Definition resets_on_render (c : Component) : bool :=
  match c with CSnow | CLights => true | _ => false end.

Definition rerender (c : Component) (progress : R) : R :=
  if resets_on_render c then initialProgress else progress.






(** Which families advance their progress with [MathUtils.damp]. *)
Definition uses_damp (c : Component) : bool :=
  match c with
  | CFoliage | CSnow | CLights => false
  | _ => true
  end.

Definition bellPalette (theme : Theme) : list string :=
  match theme with
  | ICY => ["#C0C0C0"; "#FFFFFF"]%string
  | _ => ["#D4AF37"; "#C0C0C0"; "#CD7F32"]%string
  end.

(** [<Ornaments count={60} type="cone" scaleRange={[0.25, 0.4]} .../>] *)
Definition bells (mode : string) (theme : Theme) : Ornaments.Props :=
  Ornaments.mkProps mode 60 Ornaments.cone (bellPalette theme)
    (0.25, 0.4) 0.6 false 0 (1, 1, 1).

Record Palettes := mkPalettes {
  pbox : list string; pdrum : list string; pcane : list string;
  pbell : list string; ppine : list string; pflat : list string;
  pball : list string; pstars : list string
}.

Definition isIcy (theme : Theme) : bool :=
  match theme with ICY => true | _ => false end.

Definition palettes (theme : Theme) : Palettes :=
  if isIcy theme then
    mkPalettes ["#1E90FF"; "#87CEEB"; "#FFFFFF"] ["#4682B4"; "#C0C0C0"]
      ["#FFFFFF"; "#87CEEB"; "#B0C4DE"] ["#C0C0C0"; "#FFFFFF"]
      ["#708090"; "#A9A9A9"; "#C0C0C0"] ["#4682B4"; "#5F9EA0"]
      ["#00BFFF"; "#1E90FF"; "#F0F8FF"; "#FFFFFF"]
      ["#FFFFFF"; "#E0FFFF"; "#B0E0E6"]
  else
    mkPalettes ["#B22222"; "#D4AF37"; "#228B22"; "#FFFFFF"]
      ["#B22222"; "#D4AF37"] ["#FF0000"; "#FFFFFF"; "#DC143C"]
      ["#D4AF37"; "#C0C0C0"; "#CD7F32"] ["#DAA520"; "#A9A9A9"; "#8B4513"]
      ["#CD853F"; "#D2691E"]
      ["#FF0000"; "#4169E1"; "#32CD32"; "#D4AF37"]
      ["#FFFFFF"; "#E0FFFF"; "#B0E0E6"].

Record Config := mkConfig {
  boxCount : nat; ballCount : nat; starCount : nat;
  drumCount : nat; flatCount : nat; caneCount : nat
}.

Definition config (theme : Theme) : Config :=
  if isIcy theme then mkConfig 0 350 120 0 0 40
  else mkConfig 60 150 0 50 40 80.

(** [{count > 0 && <Ornaments ... />}] *)
Definition mountIf (count : nat) (p : Ornaments.Props)
  : list Ornaments.Props :=
  if (0 <? count)%nat then [p] else [].

(** The ornament fields of the scene, in the order of the JSX. *)
Definition ornamentFields (mode : string) (theme : Theme)
  : list Ornaments.Props :=
  let c := config theme in
  let pal := palettes theme in
  mountIf (boxCount c)
    (Ornaments.mkProps mode (boxCount c) Ornaments.box (pbox pal)
       (0.3, 0.5) 0.9 false 0 (1, 1, 1)) ++
  mountIf (drumCount c)
    (Ornaments.mkProps mode (drumCount c) Ornaments.cylinder (pdrum pal)
       (0.3, 0.45) 0.7 false 0 (1, 0.6, 1)) ++
  [Ornaments.mkProps mode (caneCount c) Ornaments.cylinder (pcane pal)
     (0.2, 0.3) 0.4 false 0 (0.2, 3.0, 0.2);
   Ornaments.mkProps mode 60 Ornaments.cone (pbell pal)
     (0.25, 0.4) 0.6 false 0 (1, 1, 1);
   Ornaments.mkProps mode 70 Ornaments.dodecahedron (ppine pal)
     (0.3, 0.4) 0.8 false 0 (0.7, 1.2, 0.7)] ++
  mountIf (flatCount c)
    (Ornaments.mkProps mode (flatCount c) Ornaments.flat_box (pflat pal)
       (0.3, 0.4) 0.5 false 0 (1, 1.2, 0.2)) ++
  [Ornaments.mkProps mode (ballCount c) Ornaments.sphere (pball pal)
     (0.15, 0.25) 0.4 false 0 (1, 1, 1)] ++
  mountIf (starCount c)
    (Ornaments.mkProps mode (starCount c) Ornaments.star (pstars pal)
       (0.2, 0.35) 0.3 false 0 (1, 1, 1)).

(** The components whose progress a frame of the scene advances: the theme
    extras, the two foliage layers, the leaves, the ornament fields, one
    card per photo, the lights and the star. *)
Definition components (theme : Theme) (photos : list string)
  : list Component :=
  match theme with SNOWY => [CSnow] | ICY => [CRibbon] | CLASSIC => [] end ++
  [CFoliage; CFoliage; CLeaves] ++
  map (fun p => COrnaments (Ornaments.weight p)) (ornamentFields "" theme) ++
  map (fun _ => CPolaroid) photos ++
  [CLights; CStar].

End Scene.

(** ** App.tsx *)

Module App.

Record State := mkState {
  mode : TreeMode;
  theme : Theme;
  photos : list string;
  isGalleryOpen : bool
}.

Definition initial : State := mkState CHAOS CLASSIC [] false.




(** [prev.filter((_, index) => index !== indexToRemove)] *)
Fixpoint filterIndex {A} (keep : nat -> bool) (i : nat) (l : list A)
  : list A :=
  match l with
  | [] => []
  | x :: rest =>
      if keep i then x :: filterIndex keep (S i) rest
      else filterIndex keep (S i) rest
  end.

Definition removeAt {A} (indexToRemove : nat) (l : list A) : list A :=
  filterIndex (fun index => negb (Nat.eqb index indexToRemove)) 0 l.

Definition removePhoto (indexToRemove : nat) (s : State) : State :=
  mkState (mode s) (theme s) (removeAt indexToRemove (photos s))
    (isGalleryOpen s).




(** The state of the page, the progress of every mounted component, and
    the number of times the page was rendered again. *)
Record World := mkWorld {
  state : State;
  progresses : list (Scene.Component * R);
  renders : nat
}.

(** One frame: every component reads the mode prop and advances its own
    progress. *)
Definition frame (m : TreeMode) (delta : R)
    (ps : list (Scene.Component * R)) : list (Scene.Component * R) :=
  map (fun cp =>
         (fst cp, Scene.tick (fst cp) (modeString m) delta (snd cp))) ps.

(** A changed state renders App again, and with it Scene and every
    component in it. *)
Definition render (s : State) (w : World) : World :=
  mkWorld s
    (map (fun cp => (fst cp, Scene.rerender (fst cp) (snd cp)))
       (progresses w))
    (S (renders w)).





(** [setPhotos((prev) => [...prev, ...newPhotos])], the new urls being
    those [URL.createObjectURL] made. *)
Definition addPhotos (newPhotos : list string) (s : State) : State :=
  mkState (mode s) (theme s) (photos s ++ newPhotos) (isGalleryOpen s).

End App.

(** * Properties *)

(** ** Cube root, square root and unit draws *)

Lemma cbrt_unit (w : R) : 0 <= w < 1 -> 0 <= cbrt w < 1.
Proof.
  intros [H0 H1]. unfold cbrt.
  destruct (Rlt_dec 0 w) as [Hpos | Hnpos].
  - unfold Rpower. split.
    + left. apply exp_pos.
    + rewrite <- exp_0. apply exp_increasing.
      assert (ln w < 0) by (rewrite <- ln_1; apply ln_increasing; lra).
      lra.
  - destruct (Rlt_dec w 0); lra.
Qed.

Lemma sqrt_unit (u : R) : 0 <= u < 1 -> 0 <= sqrt u < 1.
Proof.
  intros [H0 H1]. split.
  - apply sqrt_pos.
  - apply Rlt_le_trans with (sqrt 1).
    + apply sqrt_lt_1_alt. lra.
    + rewrite sqrt_1. lra.
Qed.

Lemma sqrt_of_square (r : R) : 0 <= r -> sqrt (r * r) = r.
Proof. intro Hr. apply sqrt_square. exact Hr. Qed.

Lemma sin2_cos2_sum (a : R) : sin a * sin a + cos a * cos a = 1.
Proof. generalize (sin2_cos2 a). unfold Rsqr. lra. Qed.

(** The point of [randomSpherePoint] lies at distance [cbrt w * radius] from
    the origin. *)
Lemma spherePointAt_length (radius u v w : R) :
  0 <= radius -> 0 <= w < 1 ->
  Vec.length (math.spherePointAt radius u v w) = cbrt w * radius.
Proof.
  intros Hr Hw. unfold Vec.length, math.spherePointAt. cbn [vx vy vz].
  set (phi := acos (2 * v - 1)). set (theta := 2 * PI * u).
  set (r := cbrt w * radius).
  assert (Hr0 : 0 <= r).
  { unfold r. apply Rmult_le_pos; [apply cbrt_unit; exact Hw | exact Hr]. }
  replace (r * sin phi * cos theta * (r * sin phi * cos theta) +
           r * sin phi * sin theta * (r * sin phi * sin theta) +
           r * cos phi * (r * cos phi))
    with (r * r * (sin phi * sin phi *
                     (sin theta * sin theta + cos theta * cos theta) +
                   cos phi * cos phi)) by ring.
  rewrite sin2_cos2_sum, Rmult_1_r, sin2_cos2_sum, Rmult_1_r.
  apply sqrt_of_square. exact Hr0.
Qed.

Lemma randomSpherePoint_run (radius : R) (s : RandState) :
  math.randomSpherePoint radius s =
  (math.spherePointAt radius (draws s (next s)) (draws s (S (next s)))
     (draws s (S (S (next s)))),
   mkRand (draws s) (S (S (S (next s))))).
Proof. reflexivity. Qed.

Lemma getTreeSurfacePosition_run (radiusBase height yOffset : R)
    (s : RandState) :
  math.getTreeSurfacePosition radiusBase height yOffset s =
  (math.surfacePositionAt radiusBase height yOffset
     (draws s (next s)) (draws s (S (next s))),
   mkRand (draws s) (S (S (next s)))).
Proof. reflexivity. Qed.

(** C8: for every radius > 0 and all draws in [0, 1), the point returned by
    [randomSpherePoint] has Euclidean magnitude at most the radius. *)
Theorem randomSpherePoint_within_radius (radius : R) (s : RandState) :
  0 < radius -> unit_draws s ->
  Vec.length (fst (math.randomSpherePoint radius s)) <= radius.
Proof.
  intros Hr Hs. rewrite randomSpherePoint_run. cbn [fst].
  rewrite spherePointAt_length; [ | lra | apply Hs ].
  destruct (cbrt_unit _ (Hs (S (S (next s))))) as [H0 H1].
  nra.
Qed.

Lemma randomSpherePoint_within_radius_witness :
  Vec.length (fst (math.randomSpherePoint 25 (mkRand (fun _ => / 2) 0))) <= 25.
Proof.
  apply (randomSpherePoint_within_radius 25 (mkRand (fun _ => / 2) 0)).
  - lra.
  - intro n. cbn. lra.
Defined.

(** ** The cone surface *)

Lemma horizontal_of_polar (r theta : R) :
  0 <= r ->
  sqrt (r * cos theta * (r * cos theta) + r * sin theta * (r * sin theta)) = r.
Proof.
  intro Hr.
  replace (r * cos theta * (r * cos theta) + r * sin theta * (r * sin theta))
    with (r * r * (sin theta * sin theta + cos theta * cos theta)) by ring.
  rewrite sin2_cos2_sum, Rmult_1_r. apply sqrt_of_square. exact Hr.
Qed.

(** C9: the point returned by [getTreeSurfacePosition] has its height in
    [yOffset, yOffset + height]; its distance from the axis is
    [baseRadius * (1 - (y - yOffset) / height)], which is below any positive
    bound once y is close enough to the apex. *)
Theorem getTreeSurfacePosition_on_cone
    (baseRadius height yOffset : R) (s : RandState) :
  0 < baseRadius -> 0 < height -> unit_draws s ->
  let p := fst (math.getTreeSurfacePosition baseRadius height yOffset s) in
  (yOffset <= vy p <= yOffset + height) /\
  math.horizontalDistance p = baseRadius * (1 - (vy p - yOffset) / height) /\
  (forall eps, 0 < eps ->
     (yOffset + height) - vy p < eps * height / baseRadius ->
     math.horizontalDistance p < eps).
Proof.
  intros Hb Hh Hs. cbn zeta.
  rewrite getTreeSurfacePosition_run. cbn [fst].
  unfold math.horizontalDistance, math.surfacePositionAt. cbn [vx vy vz].
  destruct (sqrt_unit _ (Hs (next s))) as [Hq0 Hq1].
  set (q := sqrt (draws s (next s))) in *.
  set (theta := draws s (S (next s)) * PI * 2).
  assert (Hdist :
    sqrt (baseRadius * (1 - (1 - q)) * cos theta *
            (baseRadius * (1 - (1 - q)) * cos theta) +
          baseRadius * (1 - (1 - q)) * sin theta *
            (baseRadius * (1 - (1 - q)) * sin theta))
    = baseRadius * q).
  { replace (baseRadius * (1 - (1 - q))) with (baseRadius * q) by ring.
    apply horizontal_of_polar. nra. }
  rewrite Hdist.
  split; [ split; nra | split ].
  - field. lra.
  - intros eps Heps Hnear.
    assert (Hq : height * q < eps * height / baseRadius) by lra.
    assert (Hq' : q < eps / baseRadius).
    { apply Rmult_lt_reg_l with height; [exact Hh | ].
      replace (height * (eps / baseRadius)) with (eps * height / baseRadius)
        by (field; lra).
      exact Hq. }
    apply Rmult_lt_compat_l with (r := baseRadius) in Hq'; [ | exact Hb ].
    replace (baseRadius * (eps / baseRadius)) with eps in Hq' by (field; lra).
    exact Hq'.
Qed.

Lemma getTreeSurfacePosition_on_cone_witness :
  let p := fst (math.getTreeSurfacePosition 4 (19 / 2) (- 5)
                  (mkRand (fun _ => / 4) 0)) in
  (- 5 <= vy p <= - 5 + 19 / 2) /\
  math.horizontalDistance p = 4 * (1 - (vy p - - 5) / (19 / 2)) /\
  (forall eps, 0 < eps ->
     (- 5 + 19 / 2) - vy p < eps * (19 / 2) / 4 ->
     math.horizontalDistance p < eps).
Proof.
  apply (getTreeSurfacePosition_on_cone 4 (19 / 2) (- 5)
           (mkRand (fun _ => / 4) 0)).
  - lra.
  - lra.
  - intro n. cbn. lra.
Defined.

(** ** The progress controller *)

Lemma targetOf_FORMED : targetOf "FORMED" = 1.
Proof. reflexivity. Qed.


Lemma targetOf_cases (mode : string) : targetOf mode = 0 \/ targetOf mode = 1.
Proof. unfold targetOf. destruct (String.eqb mode "FORMED"); auto. Qed.

(** [damp] is the exponential approach to its target. *)
Lemma damp_closed_form (p y lambda dt : R) :
  MathUtils.damp p y lambda dt = y + (p - y) * exp (- lambda * dt).
Proof. unfold MathUtils.damp, MathUtils.lerp. ring. Qed.

Lemma damp_zero_time (p y lambda : R) : MathUtils.damp p y lambda 0 = p.
Proof. rewrite damp_closed_form, Rmult_0_r, exp_0. ring. Qed.

Lemma damp_compose (p y lambda d1 d2 : R) :
  MathUtils.damp (MathUtils.damp p y lambda d1) y lambda d2 =
  MathUtils.damp p y lambda (d1 + d2).
Proof.
  rewrite !damp_closed_form.
  replace (- lambda * (d1 + d2)) with (- lambda * d1 + - lambda * d2) by ring.
  rewrite exp_plus. ring.
Qed.

(** A convex step towards 0 or 1 stays in the unit interval, and strictly
    inside it when it starts strictly inside. *)
Lemma lerp_unit (p y k : R) :
  (y = 0 \/ y = 1) -> 0 < k < 1 ->
  (0 <= p <= 1 -> 0 <= MathUtils.lerp p y k <= 1) /\
  (0 < p < 1 -> 0 < MathUtils.lerp p y k < 1).
Proof.
  intros Hy Hk. unfold MathUtils.lerp.
  destruct Hy as [-> | ->]; split; intros Hp; split; nra.
Qed.

Lemma damp_factor_unit (lambda dt : R) :
  0 < lambda -> 0 < dt -> 0 < 1 - exp (- lambda * dt) < 1.
Proof.
  intros Hl Hd.
  assert (Hneg : - lambda * dt < 0) by nra.
  pose proof (exp_pos (- lambda * dt)) as Hpos.
  pose proof (exp_increasing _ _ Hneg) as Hlt. rewrite exp_0 in Hlt.
  lra.
Qed.

(** The families that use [damp], each with its damping speed. *)
Lemma uses_damp_spec (c : Scene.Component) :
  Scene.uses_damp c = true ->
  exists lambda,
    (Scene.well_configured c -> 0 < lambda) /\
    forall mode dt p,
      Scene.tick c mode dt p = MathUtils.damp p (targetOf mode) lambda dt.
Proof.
  destruct c as [weight | | | | | | | | ]; cbn; intro H; try discriminate.
  - exists (1.0 / weight). split; [ | reflexivity ].
    intro Hw. apply Rdiv_lt_0_compat; lra.
  - exists 1.2. split; [ lra | reflexivity ].
  - exists 1.5. split; [ lra | reflexivity ].
  - exists 1.0. split; [ lra | reflexivity ].
  - exists 0.8. split; [ lra | reflexivity ].
  - exists 1.2. split; [ lra | reflexivity ].
Qed.

(** The claim C2 as stated fails on the foliage: its [useFrame] moves the
    progress by a fixed fraction per frame, so two frames of one second do
    not give what one frame of two seconds gives. *)
Lemma foliage_progress_depends_on_frame_count :
  Scene.tick Scene.CFoliage "FORMED" (1 + 1) 0 <>
  Scene.tick Scene.CFoliage "FORMED" 1
    (Scene.tick Scene.CFoliage "FORMED" 1 0).
Proof.
  cbn. unfold Foliage.tick, MathUtils.lerp. rewrite targetOf_FORMED. lra.
Qed.

(** C2, amended: the components that advance their progress with [damp]
    (Ornaments, Trunk, Leaves, Ribbon, Star, Polaroids) give the same
    progress over an elapsed time [d1 + d2] as over [d1] and then [d2];
    Foliage and Snow move the progress by the fixed fraction 0.02 of the
    remaining distance per frame whatever time elapsed, and Lights by the
    fraction [delta]. *)
Theorem damped_progress_is_frame_independent :
  (forall c mode p d1 d2,
     Scene.uses_damp c = true ->
     Scene.tick c mode (d1 + d2) p =
     Scene.tick c mode d2 (Scene.tick c mode d1 p)) /\
  (forall mode p d,
     Scene.tick Scene.CFoliage mode d p = p + 0.02 * (targetOf mode - p) /\
     Scene.tick Scene.CSnow mode d p = p + 0.02 * (targetOf mode - p) /\
     Scene.tick Scene.CLights mode d p = p + d * (targetOf mode - p)).
Proof.
  split.
  - intros c mode p d1 d2 Hc.
    destruct (uses_damp_spec c Hc) as [lambda [_ Htick]].
    rewrite !Htick. symmetry. apply damp_compose.
  - intros mode p d. cbn.
    unfold Foliage.tick, Snow.tick, Lights.tick, MathUtils.lerp.
    repeat split; lra.
Qed.

Lemma damped_progress_is_frame_independent_witness :
  Scene.tick Scene.CTrunk "FORMED" (1 + 2) 0 =
  Scene.tick Scene.CTrunk "FORMED" 2 (Scene.tick Scene.CTrunk "FORMED" 1 0).
Proof.
  apply (proj1 damped_progress_is_frame_independent
           Scene.CTrunk "FORMED"%string 0 1 2).
  reflexivity.
Defined.

(** ** The unit interval as an invariant of the progress *)

(** One frame of any family, under the conditions of [frame_ok]. *)
Lemma tick_unit (c : Scene.Component) (mode : string) (dt p : R) :
  Scene.well_configured c -> Scene.frame_ok c dt ->
  (0 <= p <= 1 -> 0 <= Scene.tick c mode dt p <= 1) /\
  (0 < p < 1 -> 0 < Scene.tick c mode dt p < 1).
Proof.
  intros Hc [Hdt Hshort].
  destruct (Scene.uses_damp c) eqn:Hd.
  - destruct (uses_damp_spec c Hd) as [lambda [Hl Htick]].
    rewrite Htick. unfold MathUtils.damp.
    apply lerp_unit; [ apply targetOf_cases | ].
    apply damp_factor_unit; auto.
  - destruct c; try discriminate; cbn;
      unfold Foliage.tick, Snow.tick, Lights.tick;
      (apply lerp_unit; [ apply targetOf_cases | lra ]).
Qed.





(** ** Five seconds at damping constant 1.2 *)

Lemma exp_6_gt_100 : 100 < exp 6.
Proof.
  assert (H : 1 + / 2 < exp (/ 2)) by (apply exp_ineq1; lra).
  assert (H1 : exp (/ 2 + / 2) = exp (/ 2) * exp (/ 2)) by apply exp_plus.
  assert (H2 : exp (1 + 1) = exp 1 * exp 1) by apply exp_plus.
  assert (H4 : exp (2 + 2) = exp 2 * exp 2) by apply exp_plus.
  assert (H6 : exp (4 + 2) = exp 4 * exp 2) by apply exp_plus.
  replace (/ 2 + / 2) with 1 in H1 by lra.
  replace (1 + 1) with 2 in H2 by lra.
  replace (2 + 2) with 4 in H4 by lra.
  replace (4 + 2) with 6 in H6 by lra.
  assert (E1 : 9 / 4 < exp 1) by nra.
  assert (E2 : 81 / 16 < exp 2) by nra.
  assert (E4 : 25 < exp 4) by nra.
  nra.
Qed.

(** Frames at one mode add up: a damped family is where one frame of the
    total elapsed time would have put it. *)
Lemma ticks_damp (c : Scene.Component) (lambda : R) (mode : string) :
  (forall dt p,
     Scene.tick c mode dt p = MathUtils.damp p (targetOf mode) lambda dt) ->
  forall deltas p,
    Scene.ticks c mode deltas p =
    MathUtils.damp p (targetOf mode) lambda (Scene.elapsed deltas).
Proof.
  intros Htick deltas. unfold Scene.ticks.
  induction deltas as [ | d ds IH ]; intro p; cbn [fold_left Scene.elapsed fold_right].
  - rewrite damp_zero_time. reflexivity.
  - rewrite IH, Htick. apply damp_compose.
Qed.

(** C7: a component with damping constant 1.2 (Trunk, a Polaroid card)
    whose progress starts at 0 and which runs at mode FORMED over frames
    that add up to 5 seconds ends with a progress above 0.99. *)
Theorem formed_after_five_seconds (deltas : list R) :
  Scene.elapsed deltas = 5 ->
  0.99 < Scene.ticks Scene.CTrunk "FORMED" deltas Scene.initialProgress /\
  0.99 < Scene.ticks Scene.CPolaroid "FORMED" deltas Scene.initialProgress.
Proof.
  intro Hsum.
  rewrite (ticks_damp Scene.CTrunk 1.2 "FORMED") by reflexivity.
  rewrite (ticks_damp Scene.CPolaroid 1.2 "FORMED") by reflexivity.
  rewrite Hsum, damp_closed_form, targetOf_FORMED.
  unfold Scene.initialProgress.
  replace (- (1.2) * 5) with (- (6)) by lra.
  rewrite exp_Ropp.
  pose proof exp_6_gt_100 as H.
  assert (Hinv : / exp 6 < / 100).
  { apply Rinv_lt_contravar; nra. }
  lra.
Qed.

Lemma formed_after_five_seconds_witness :
  0.99 < Scene.ticks Scene.CTrunk "FORMED" [2; 3] Scene.initialProgress /\
  0.99 < Scene.ticks Scene.CPolaroid "FORMED" [2; 3] Scene.initialProgress.
Proof.
  apply (formed_after_five_seconds [2; 3]). cbn. lra.
Defined.

(** ** Setting the mode *)










(** ** Positions at the two ends of the progress *)

Lemma easeOutCubic_0 : easeOutCubic 0 = 0.
Proof. unfold easeOutCubic, cube. ring. Qed.

Lemma easeOutCubic_1 : easeOutCubic 1 = 1.
Proof. unfold easeOutCubic, cube. ring. Qed.

Lemma easeOutCubic_unit (t : R) : 0 <= t <= 1 -> 0 <= easeOutCubic t <= 1.
Proof.
  intros [H0 H1]. unfold easeOutCubic, cube.
  assert (Ha : 0 <= 1 - t <= 1) by lra.
  assert (Hsq : 0 <= (1 - t) * (1 - t) <= 1) by nra.
  split; nra.
Qed.

Lemma lerpVectors_0 (a b : Vector3) : Vec.lerpVectors a b 0 = a.
Proof. destruct a, b. unfold Vec.lerpVectors. cbn. f_equal; ring. Qed.

Lemma lerpVectors_1 (a b : Vector3) : Vec.lerpVectors a b 1 = b.
Proof. destruct a, b. unfold Vec.lerpVectors. cbn. f_equal; ring. Qed.

Lemma mix_0 (a b : Vector3) : GLSL.mix a b 0 = a.
Proof. destruct a, b. unfold GLSL.mix. cbn. f_equal; ring. Qed.

Lemma mix_1 (a b : Vector3) : GLSL.mix a b 1 = b.
Proof. destruct a, b. unfold GLSL.mix. cbn. f_equal; ring. Qed.

Lemma smoothstep_0 : GLSL.smoothstep 0.0 1.0 0 = 0.
Proof.
  unfold GLSL.smoothstep, GLSL.clamp.
  replace ((0 - 0.0) / (1.0 - 0.0)) with 0 by lra.
  rewrite Rmax_left by lra. rewrite Rmin_left by lra. ring.
Qed.

Lemma smoothstep_1 : GLSL.smoothstep 0.0 1.0 1 = 1.
Proof.
  unfold GLSL.smoothstep, GLSL.clamp.
  replace ((1 - 0.0) / (1.0 - 0.0)) with 1 by lra.
  rewrite Rmax_left by lra. rewrite Rmin_left by lra. ring.
Qed.

(** The claim C1 as stated fails on the ornaments: above a progress of 0.8
    the frame adds a wobble to the height, so at progress 1 the ornament
    is not at its target. *)
Lemma ornament_at_full_progress_is_off_target :
  Ornaments.position
    (Ornaments.mkDatum (vec3 0 0 0) (vec3 1 2 3) None (3 / 10) 0 0 1)
    (PI / 4) 1
  <> vec3 1 2 3.
Proof.
  unfold Ornaments.position. cbn [Ornaments.chaos Ornaments.target Ornaments.phase].
  destruct (Rlt_dec 0.8 1) as [_ | Hn]; [ | exfalso; lra ].
  rewrite easeOutCubic_1, lerpVectors_1. cbn [vx vy vz].
  replace (PI / 4 * 2 + 0) with (PI / 2) by field.
  rewrite sin_PI2. intro H. injection H as Hy. lra.
Qed.

(** C1, amended: with ease(t) = 1 - (1 - t)^3, ease(0) = 0 and ease(1) = 1,
    the interpolated position lerp(chaos, target, ease(progress)) is the
    chaos position at progress 0 and the target position at progress 1.
    Trunk, Leaves, Ribbon, Star, Polaroids and Lights render exactly it at
    both ends, Ornaments and Foliage at progress 0.  At progress 1 an
    ornament is rendered at its target raised by 0.05 sin(2 time + phase)
    and a foliage point at its target raised by
    0.1 sin(0.5 time + 10 aRandom); a snow flake is rendered, at either end,
    with its float offset of amplitude 0.2 on each axis added. *)
Theorem rendered_position_at_endpoints :
  (easeOutCubic 0 = 0 /\ easeOutCubic 1 = 1) /\
  (forall chaos target,
     Vec.lerpVectors chaos target (easeOutCubic 0) = chaos /\
     Vec.lerpVectors chaos target (easeOutCubic 1) = target /\
     GLSL.mix chaos target (easeOutCubic 0) = chaos /\
     GLSL.mix chaos target (easeOutCubic 1) = target) /\
  (forall chaos target,
     Trunk.position chaos target 0 = chaos /\
     Trunk.position chaos target 1 = target /\
     Leaves.position chaos target 0 = chaos /\
     Leaves.position chaos target 1 = target /\
     Ribbon.position chaos target 0 = chaos /\
     Ribbon.position chaos target 1 = target /\
     Star.position chaos 0 = chaos /\
     Star.position chaos 1 = Star.targetPos /\
     Lights.position chaos target 0 = chaos /\
     Lights.position chaos target 1 = target) /\
  (forall it,
     Polaroids.position it 0 = Polaroids.chaosPos it /\
     Polaroids.position it 1 = Polaroids.targetPos it) /\
  (forall d time,
     Ornaments.position d time 0 = Ornaments.chaos d /\
     Ornaments.position d time 1 =
       Vec.add (Ornaments.target d)
         (vec3 0 (sin (time * 2 + Ornaments.phase d) * 0.05) 0)) /\
  (forall chaos target aRandom uTime,
     Foliage.position chaos target aRandom uTime 0 = chaos /\
     Foliage.position chaos target aRandom uTime 1 =
       Vec.add target (vec3 0 (sin (uTime * 0.5 + aRandom * 10.0) * 0.1) 0)) /\
  (forall chaos target aRandom uTime,
     let float :=
       vec3 (sin (uTime * 0.5 + aRandom * 10.0) * 0.2)
            (cos (uTime * 0.3 + aRandom * 20.0) * 0.2)
            (sin (uTime * 0.4 + aRandom * 15.0) * 0.2) in
     Snow.position chaos target aRandom uTime 0 = Vec.add chaos float /\
     Snow.position chaos target aRandom uTime 1 = Vec.add target float).
Proof.
  repeat match goal with |- _ /\ _ => split end.
  - exact easeOutCubic_0.
  - exact easeOutCubic_1.
  - intros chaos target. rewrite easeOutCubic_0, easeOutCubic_1.
    rewrite lerpVectors_0, lerpVectors_1, mix_0, mix_1. auto.
  - intros chaos target.
    unfold Trunk.position, Leaves.position, Ribbon.position, Star.position,
      Lights.position.
    rewrite smoothstep_0, smoothstep_1.
    replace (1.0 - cube (1.0 - 0)) with 0 by (unfold cube; lra).
    replace (1.0 - cube (1.0 - 1)) with 1 by (unfold cube; lra).
    rewrite easeOutCubic_0, easeOutCubic_1.
    rewrite !lerpVectors_0, !lerpVectors_1, mix_0, mix_1.
    repeat split.
  - intro it. unfold Polaroids.position.
    rewrite easeOutCubic_0, easeOutCubic_1, lerpVectors_0, lerpVectors_1.
    auto.
  - intros d time. unfold Ornaments.position.
    destruct (Rlt_dec 0.8 0) as [Hlt | _]; [ exfalso; lra | ].
    destruct (Rlt_dec 0.8 1) as [_ | Hn]; [ | exfalso; lra ].
    rewrite easeOutCubic_0, easeOutCubic_1, lerpVectors_0, lerpVectors_1.
    split; [ reflexivity | ].
    unfold Vec.add. cbn [vx vy vz]. f_equal; lra.
  - intros chaos target aRandom uTime. unfold Foliage.position.
    rewrite easeOutCubic_0, easeOutCubic_1, mix_0, mix_1.
    destruct chaos, target. unfold Vec.add. cbn [vx vy vz].
    split; f_equal; lra.
  - intros chaos target aRandom uTime float. unfold Snow.position.
    rewrite easeOutCubic_0, easeOutCubic_1, mix_0, mix_1.
    destruct chaos, target. unfold float, Vec.add. cbn [vx vy vz].
    split; f_equal; lra.
Qed.


(** ** The scale of the bells *)

Lemma datum_scale (pal : list string) (range : R * R) (s : RandState) :
  Ornaments.scale (fst (Ornaments.datum pal range s)) =
  Ornaments.scaleAt range (draws s (6 + next s)).
Proof. reflexivity. Qed.

Lemma datum_state (pal : list string) (range : R * R) (s : RandState) :
  snd (Ornaments.datum pal range s) = mkRand (draws s) (10 + next s).
Proof. reflexivity. Qed.

Lemma data_S (n : nat) (pal : list string) (range : R * R) (s : RandState) :
  fst (Ornaments.data (S n) pal range s) =
  fst (Ornaments.datum pal range s) ::
  fst (Ornaments.data n pal range (snd (Ornaments.datum pal range s))).
Proof.
  cbn [Ornaments.data]. unfold mbind, rand_bind, mret, rand_ret.
  destruct (Ornaments.datum pal range s) as [d s1]. cbn [fst snd].
  destruct (Ornaments.data n pal range s1) as [ds s2]. reflexivity.
Qed.

Lemma data_head (n : nat) (pal : list string) (range : R * R)
    (s : RandState) :
  In (fst (Ornaments.datum pal range s))
     (fst (Ornaments.data (S n) pal range s)).
Proof. rewrite data_S. apply in_eq. Qed.

(** Every instance of a field draws its scale from the stream, and the
    field has [count] instances. *)
Lemma data_scales (n : nat) (pal : list string) (range : R * R) :
  forall s,
    List.length (fst (Ornaments.data n pal range s)) = n /\
    Forall (fun d => exists k, Ornaments.scale d =
                               Ornaments.scaleAt range (draws s k))
      (fst (Ornaments.data n pal range s)).
Proof.
  induction n as [ | n IH ]; intro s.
  - split; [ reflexivity | constructor ].
  - rewrite data_S. destruct (IH (snd (Ornaments.datum pal range s))) as [Hl Hf].
    split; [ cbn [List.length]; rewrite Hl; reflexivity | ].
    constructor.
    + exists (6 + next s)%nat. apply datum_scale.
    + rewrite datum_state in Hf. exact Hf.
Qed.

Lemma field_bells (mode : string) (theme : Theme) :
  Ornaments.field (Scene.bells mode theme) =
  Ornaments.data (S 59) (Scene.bellPalette theme) (0.25, 0.4).
Proof. reflexivity. Qed.

Lemma scaleAt_bell (r : R) :
  0 <= r < 1 -> 0.25 <= Ornaments.scaleAt (0.25, 0.4) r < 0.4.
Proof. intros Hr. unfold Ornaments.scaleAt. cbn [fst snd]. lra. Qed.

Lemma bell_scaleMult (mode : string) (theme : Theme) (d : Ornaments.Datum)
    (time t : R) :
  Ornaments.scaleMult (Scene.bells mode theme) d time t = 1.
Proof.
  unfold Ornaments.scaleMult.
  cbn [Scene.bells Ornaments.emissive Ornaments.type Ornaments.is_star orb].
  lra.
Qed.

Lemma renderedScale_modulated (p : Ornaments.Props) (d : Ornaments.Datum)
    (time t : R) :
  Ornaments.renderedScale p d time t =
  Ornaments.renderedModulated p d (Ornaments.progressPulse t)
    (Ornaments.scaleMult p d time t).
Proof. reflexivity. Qed.

Lemma bell_renderedModulated (mode : string) (theme : Theme)
    (d : Ornaments.Datum) (a b : R) :
  Ornaments.renderedModulated (Scene.bells mode theme) d a b =
  vec3 (Ornaments.scale d * a * b) (Ornaments.scale d * a * b)
       (Ornaments.scale d * a * b).
Proof.
  unfold Ornaments.renderedModulated, Ornaments.modulatedScale.
  cbn [Scene.bells Ornaments.geometryScale]. f_equal; lra.
Qed.

Lemma progressPulse_bounds (t : R) :
  0 <= t <= 1 -> 0.8 <= Ornaments.progressPulse t <= 1.
Proof.
  intro Ht. pose proof (easeOutCubic_unit t Ht) as He.
  unfold Ornaments.progressPulse. lra.
Qed.

(** C3: in the field of 60 bells with scaleRange = [0.25, 0.4], whatever
    the random draws, at every moment and every progress in [0, 1] the
    scale an instance is rendered with is its base scale times the two
    pulse modulations: the one that follows the progress, 0.8 + 0.2 ease,
    which lies in [0.8, 1], and the periodic one, which is 1 for the
    bells.  With the pulse modulation left out, that is with both factors
    at 1, the rendered scale is the one the initial setup writes and lies
    within [0.25, 0.4] on every axis.  (With the modulation it lies within
    [0.2, 0.4].) *)
Theorem bell_scale_within_range
    (mode : string) (theme : Theme) (s : RandState) :
  unit_draws s ->
  List.length (fst (Ornaments.field (Scene.bells mode theme) s)) = 60%nat /\
  Forall (fun d =>
            forall time t, 0 <= t <= 1 ->
              Ornaments.renderedScale (Scene.bells mode theme) d time t =
                Ornaments.renderedModulated (Scene.bells mode theme) d
                  (Ornaments.progressPulse t)
                  (Ornaments.scaleMult (Scene.bells mode theme) d time t) /\
              Ornaments.scaleMult (Scene.bells mode theme) d time t = 1 /\
              0.8 <= Ornaments.progressPulse t <= 1 /\
              Ornaments.renderedModulated (Scene.bells mode theme) d 1 1 =
                Ornaments.setupScale d /\
              0.25 <= vx (Ornaments.renderedModulated
                            (Scene.bells mode theme) d 1 1) <= 0.4 /\
              0.25 <= vy (Ornaments.renderedModulated
                            (Scene.bells mode theme) d 1 1) <= 0.4 /\
              0.25 <= vz (Ornaments.renderedModulated
                            (Scene.bells mode theme) d 1 1) <= 0.4 /\
              0.2 <= vx (Ornaments.renderedScale
                           (Scene.bells mode theme) d time t) <= 0.4 /\
              0.2 <= vy (Ornaments.renderedScale
                           (Scene.bells mode theme) d time t) <= 0.4 /\
              0.2 <= vz (Ornaments.renderedScale
                           (Scene.bells mode theme) d time t) <= 0.4)
    (fst (Ornaments.field (Scene.bells mode theme) s)).
Proof.
  intros Hs. rewrite field_bells.
  destruct (data_scales (S 59) (Scene.bellPalette theme) (0.25, 0.4) s)
    as [Hlen Hall].
  split; [ exact Hlen | ].
  eapply List.Forall_impl; [ | exact Hall ].
  intros d [k Hk].
  assert (Hbase : 0.25 <= Ornaments.scale d < 0.4).
  { rewrite Hk. apply scaleAt_bell. apply Hs. }
  intros time t Ht.
  pose proof (progressPulse_bounds t Ht) as Hpulse.
  split; [ apply renderedScale_modulated | ].
  split; [ apply bell_scaleMult | ].
  split; [ exact Hpulse | ].
  rewrite renderedScale_modulated, bell_scaleMult, !bell_renderedModulated.
  cbn [vx vy vz]. unfold Ornaments.setupScale.
  split; [ f_equal; lra | ].
  repeat split; nra.
Qed.

Lemma bell_scale_within_range_witness :
  unit_draws (mkRand (fun _ => / 2) 0) /\
  List.length (fst (Ornaments.field (Scene.bells "FORMED" CLASSIC)
                      (mkRand (fun _ => / 2) 0))) = 60%nat.
Proof.
  assert (Hs : unit_draws (mkRand (fun _ => / 2) 0)).
  { intro n. cbn [draws]. lra. }
  split; [ exact Hs | ].
  exact (proj1 (bell_scale_within_range "FORMED" CLASSIC
                  (mkRand (fun _ => / 2) 0) Hs)).
Defined.

(** ** Photo cards: removal and reconciliation by key *)

Lemma filterIndex_all {A} (keep : nat -> bool) (l : list A) :
  forall i, (forall idx, (i <= idx)%nat -> keep idx = true) ->
            App.filterIndex keep i l = l.
Proof.
  induction l as [ | x l IH ]; intros i Hkeep; cbn [App.filterIndex].
  - reflexivity.
  - rewrite (Hkeep i) by lia. f_equal. apply IH. intros idx Hidx.
    apply Hkeep. lia.
Qed.

Lemma filterIndex_delete {A} (t : nat) (l : list A) :
  forall i, (i <= t)%nat ->
    App.filterIndex (fun index => negb (Nat.eqb index t)) i l =
    delete (t - i)%nat l.
Proof.
  induction l as [ | x l IH ]; intros i Hi; cbn [App.filterIndex].
  - reflexivity.
  - destruct (Nat.eqb_spec i t) as [-> | Hne]; cbn [negb].
    + rewrite Nat.sub_diag. cbn. apply filterIndex_all.
      intros idx Hidx. destruct (Nat.eqb_spec idx t); [ lia | reflexivity ].
    + replace (t - i)%nat with (S (t - S i)) by lia. cbn. f_equal.
      apply IH. lia.
Qed.

(** [filter] by index is the removal of one position. *)
Lemma removeAt_delete {A} (k : nat) (l : list A) :
  App.removeAt k l = delete k l.
Proof.
  unfold App.removeAt. rewrite filterIndex_delete by lia.
  rewrite Nat.sub_0_r. reflexivity.
Qed.

Lemma removeAt_lookup {A} (k j : nat) (l : list A) :
  j <> k ->
  App.removeAt k l !! (if (j <? k)%nat then j else Nat.pred j) = l !! j.
Proof.
  intro Hjk. rewrite removeAt_delete.
  destruct (Nat.ltb_spec j k) as [Hlt | Hge].
  - apply list_lookup_delete_lt. exact Hlt.
  - rewrite list_lookup_delete_ge by lia. f_equal. lia.
Qed.

Lemma removeAt_NoDup {A} (k : nat) (l : list A) :
  NoDup l -> NoDup (App.removeAt k l).
Proof.
  rewrite removeAt_delete. intro Hl.
  eapply sublist_NoDup; [ exact Hl | apply sublist_delete ].
Qed.

Lemma removeAt_elem_of {A} (k : nat) (l : list A) (x : A) :
  x ∈ App.removeAt k l -> x ∈ l.
Proof.
  rewrite removeAt_delete. intro Hx.
  eapply elem_of_sublist; [ exact Hx | apply sublist_delete ].
Qed.

Lemma update_fields (i n : nat) (it : Polaroids.Item) :
  Polaroids.index (Polaroids.update i n it) = i /\
  Polaroids.total (Polaroids.update i n it) = n /\
  Polaroids.chaosPos (Polaroids.update i n it) = Polaroids.chaosPos it /\
  Polaroids.rotationOffset (Polaroids.update i n it) =
    Polaroids.rotationOffset it /\
  Polaroids.swaySpeed (Polaroids.update i n it) = Polaroids.swaySpeed it /\
  Polaroids.progress (Polaroids.update i n it) = Polaroids.progress it /\
  (Polaroids.memo_ok it -> Polaroids.memo_ok (Polaroids.update i n it)).
Proof.
  unfold Polaroids.update, Polaroids.memo_ok.
  destruct (decide ((Polaroids.index it, Polaroids.total it) = (i, n)))
    as [Heq | Hne]; cbn.
  - injection Heq as Hi Hn. repeat split; auto.
  - repeat split; auto.
Qed.

Lemma mount_run (i n : nat) (s : RandState) :
  Polaroids.mount i n s =
  (Polaroids.mkItem i n
     (math.spherePointAt 14 (draws s (next s)) (draws s (S (next s)))
        (draws s (S (S (next s)))))
     (draws s (3 + next s) * PI * 2)
     (0.5 + draws s (4 + next s) * 1.5)
     (Polaroids.targetPosAt i n) 0,
   mkRand (draws s) (5 + next s)).
Proof. reflexivity. Qed.

Lemma renderItems_cons (url : string) (rest : list string) (i n : nat)
    (mounted : gmap string Polaroids.Item) (s : RandState) :
  Polaroids.renderItems (url :: rest) i n mounted s =
  let r1 := match mounted !! url with
            | Some it => (Polaroids.update i n it, s)
            | None => Polaroids.mount i n s
            end in
  let r2 := Polaroids.renderItems rest (S i) n mounted (snd r1) in
  (<[url := fst r1]> (fst r2), snd r2).
Proof.
  cbn [Polaroids.renderItems]. unfold mbind, rand_bind, mret, rand_ret.
  destruct (mounted !! url) as [it | ]; cbn [fst snd].
  - destruct (Polaroids.renderItems rest (S i) n mounted s). reflexivity.
  - destruct (Polaroids.mount i n s) as [it s1]. cbn [fst snd].
    destruct (Polaroids.renderItems rest (S i) n mounted s1). reflexivity.
Qed.

(** What one reconciliation leaves mounted: exactly the cards of [urls],
    each at its position in the list; a card that was mounted before is the
    update of what was kept for it, and when all were mounted no draw is
    made. *)
Lemma renderItems_spec (urls : list string) :
  NoDup urls ->
  forall (i n : nat) (mounted : gmap string Polaroids.Item) (s : RandState),
    (forall (j : nat) (url : string),
       urls !! j = Some url ->
       exists it,
         fst (Polaroids.renderItems urls i n mounted s) !! url = Some it /\
         Polaroids.index it = (i + j)%nat /\ Polaroids.total it = n /\
         (forall old, mounted !! url = Some old ->
                      it = Polaroids.update (i + j) n old) /\
         ((forall old, mounted !! url = Some old -> Polaroids.memo_ok old) ->
          Polaroids.memo_ok it)) /\
    (forall url, url ∉ urls ->
       fst (Polaroids.renderItems urls i n mounted s) !! url = None) /\
    ((forall url, url ∈ urls -> is_Some (mounted !! url)) ->
     snd (Polaroids.renderItems urls i n mounted s) = s).
Proof.
  induction 1 as [ | u rest Hnotin Hnodup IH ]; intros i n mounted s.
  - split; [ | split ].
    + intros j url Hj. rewrite lookup_nil in Hj. discriminate.
    + intros url _. apply lookup_empty.
    + intros _. reflexivity.
  - rewrite renderItems_cons. cbn zeta.
    set (r1 := match mounted !! u with
               | Some it => (Polaroids.update i n it, s)
               | None => Polaroids.mount i n s
               end).
    destruct (IH (S i) n mounted (snd r1)) as [IHin [IHout IHdraw]].
    cbn [fst snd].
    split; [ | split ].
    + intros [ | j ] url Hj; cbn in Hj.
      * injection Hj as <-. exists (fst r1). rewrite lookup_insert_eq.
        rewrite Nat.add_0_r. split; [ reflexivity | ].
        unfold r1. destruct (mounted !! u) as [old | ]; cbn [fst].
        -- destruct (update_fields i n old)
             as (Hi & Hn & _ & _ & _ & _ & Hok).
           repeat split; auto.
           ++ intros old' Heq. injection Heq as <-. reflexivity.
        -- rewrite mount_run. cbn [fst Polaroids.index Polaroids.total].
           repeat split; auto. intros old Hold. discriminate.
      * assert (Hne : u <> url).
        { intros ->. apply Hnotin. eapply list_elem_of_lookup_2. exact Hj. }
        destruct (IHin j url Hj) as (it & Hlook & Hi & Hn & Hold & Hok).
        exists it. rewrite lookup_insert_ne by exact Hne.
        replace (i + S j)%nat with (S i + j)%nat by lia.
        repeat split; auto.
    + intros url Hout. apply not_elem_of_cons in Hout as [Hne Hout].
      rewrite lookup_insert_ne by auto. apply IHout. exact Hout.
    + intros Hall. rewrite IHdraw.
      * unfold r1. destruct (Hall u) as [old Hold]; [ left | ].
        rewrite Hold. reflexivity.
      * intros url Hin. apply Hall. right. exact Hin.
Qed.

Lemma render_renderItems (urls : list string)
    (mounted : gmap string Polaroids.Item) (s : RandState) :
  Polaroids.render urls mounted s =
  Polaroids.renderItems urls 0 (List.length urls) mounted s.
Proof. destruct urls; reflexivity. Qed.

(** C4: when one card of a population of photo cards is removed, every
    surviving card keeps its stored chaos position, its rotation offset and
    its sway speed (and its progress); the removal draws no random number,
    and only the index, the total and the target position of a survivor may
    change. *)
Theorem removal_keeps_surviving_cards
    (urls : list string) (k : nat)
    (mounted0 : gmap string Polaroids.Item) (s0 : RandState) :
  NoDup urls ->
  forall (j : nat) (url : string),
    j <> k -> urls !! j = Some url ->
    exists it1 it2,
      fst (Polaroids.render urls mounted0 s0) !! url = Some it1 /\
      fst (Polaroids.render (App.removeAt k urls)
             (fst (Polaroids.render urls mounted0 s0))
             (snd (Polaroids.render urls mounted0 s0))) !! url = Some it2 /\
      Polaroids.chaosPos it2 = Polaroids.chaosPos it1 /\
      Polaroids.rotationOffset it2 = Polaroids.rotationOffset it1 /\
      Polaroids.swaySpeed it2 = Polaroids.swaySpeed it1 /\
      Polaroids.progress it2 = Polaroids.progress it1 /\
      Polaroids.index it1 = j /\
      Polaroids.index it2 = (if (j <? k)%nat then j else Nat.pred j) /\
      snd (Polaroids.render (App.removeAt k urls)
             (fst (Polaroids.render urls mounted0 s0))
             (snd (Polaroids.render urls mounted0 s0))) =
      snd (Polaroids.render urls mounted0 s0).
Proof.
  intros Hnodup j url Hjk Hj.
  rewrite !render_renderItems.
  destruct (renderItems_spec urls Hnodup 0 (List.length urls) mounted0 s0)
    as [Hin1 _].
  set (r1 := Polaroids.renderItems urls 0 (List.length urls) mounted0 s0) in *.
  destruct (Hin1 j url Hj) as (it1 & Hlook1 & Hidx1 & _).
  pose proof (removeAt_NoDup k urls Hnodup) as Hnodup'.
  destruct (renderItems_spec (App.removeAt k urls) Hnodup' 0
              (List.length (App.removeAt k urls)) (fst r1) (snd r1))
    as [Hin2 [_ Hdraw2]].
  pose proof (removeAt_lookup k j urls Hjk) as Hj'. rewrite Hj in Hj'.
  destruct (Hin2 _ url Hj') as (it2 & Hlook2 & Hidx2 & _ & Hold & _).
  specialize (Hold it1 Hlook1).
  destruct (update_fields (0 + (if (j <? k)%nat then j else Nat.pred j))
              (List.length (App.removeAt k urls)) it1)
    as (_ & _ & Hc & Hr & Hs & Hp & _).
  rewrite <- Hold in Hc, Hr, Hs, Hp.
  exists it1, it2. repeat split; auto.
  apply Hdraw2. intros url' Hin'.
  apply removeAt_elem_of in Hin'.
  apply list_elem_of_lookup_1 in Hin' as [j' Hj''].
  destruct (Hin1 j' url' Hj'') as (it' & Hlook' & _).
  exists it'. exact Hlook'.
Qed.

Lemma NoDup_abc : NoDup ["a"; "b"; "c"]%string.
Proof.
  apply NoDup_cons. split; [ | apply NoDup_cons; split;
    [ | apply NoDup_cons; split; [ | apply NoDup_nil_2 ] ] ].
  - rewrite !not_elem_of_cons. repeat split; try discriminate.
    apply not_elem_of_nil.
  - rewrite !not_elem_of_cons. repeat split; try discriminate.
    apply not_elem_of_nil.
  - apply not_elem_of_nil.
Defined.

Lemma removal_keeps_surviving_cards_witness :
  exists it1 it2,
    fst (Polaroids.render ["a"; "b"; "c"]%string ∅ (mkRand (fun _ => / 2) 0))
      !! "c"%string = Some it1 /\
    fst (Polaroids.render (App.removeAt 1 ["a"; "b"; "c"]%string)
           (fst (Polaroids.render ["a"; "b"; "c"]%string ∅
                   (mkRand (fun _ => / 2) 0)))
           (snd (Polaroids.render ["a"; "b"; "c"]%string ∅
                   (mkRand (fun _ => / 2) 0)))) !! "c"%string = Some it2 /\
    Polaroids.chaosPos it2 = Polaroids.chaosPos it1 /\
    Polaroids.rotationOffset it2 = Polaroids.rotationOffset it1 /\
    Polaroids.swaySpeed it2 = Polaroids.swaySpeed it1 /\
    Polaroids.progress it2 = Polaroids.progress it1 /\
    Polaroids.index it1 = 2%nat /\
    Polaroids.index it2 = (if (2 <? 1)%nat then 2%nat else Nat.pred 2) /\
    snd (Polaroids.render (App.removeAt 1 ["a"; "b"; "c"]%string)
           (fst (Polaroids.render ["a"; "b"; "c"]%string ∅
                   (mkRand (fun _ => / 2) 0)))
           (snd (Polaroids.render ["a"; "b"; "c"]%string ∅
                   (mkRand (fun _ => / 2) 0)))) =
    snd (Polaroids.render ["a"; "b"; "c"]%string ∅ (mkRand (fun _ => / 2) 0)).
Proof.
  apply (removal_keeps_surviving_cards ["a"; "b"; "c"]%string 1 ∅
           (mkRand (fun _ => / 2) 0) NoDup_abc 2 "c"%string).
  - lia.
  - reflexivity.
Defined.

(** ** Three photos, the middle one removed *)

Lemma PI_bounds : 3.1 < PI < 3.3.
Proof.
  pose proof (PI_2_3_7_ineq 0) as [Hlo Hhi].
  unfold sum_f_R0, tg_alt, PI_2_3_7_tg, Ratan_seq in Hlo, Hhi.
  simpl in Hlo, Hhi. lra.
Qed.

(** 24.68 lies between 7 pi and 8 pi. *)
Lemma sin_24_68 : sin (2 * 12.34) <= 0.
Proof.
  pose proof PI_bounds as [Hlo Hhi].
  replace (2 * 12.34) with ((2 * 12.34 - 2 * INR 3 * PI) + 2 * INR 3 * PI)
    by lra.
  rewrite sin_period.
  apply sin_le_0; simpl INR; lra.
Qed.

(** The slot of index 0 does not depend on the total. *)
Lemma targetPosAt_first (n m : nat) :
  Polaroids.targetPosAt 0 n = Polaroids.targetPosAt 0 m.
Proof.
  unfold Polaroids.targetPosAt. change (INR 0) with 0.
  unfold Rdiv. rewrite !Rmult_0_l. reflexivity.
Qed.

(** The slot of index 1 of 2 is higher than the slot of index 2 of 3. *)
Lemma targetPosAt_third_moves :
  vy (Polaroids.targetPosAt 2 3) < vy (Polaroids.targetPosAt 1 2).
Proof.
  unfold Polaroids.targetPosAt. cbn [vy].
  change (Nat.max 3 1) with 3%nat. change (Nat.max 2 1) with 2%nat.
  replace (INR 3) with 3 by (simpl; lra).
  replace (INR 2) with 2 by (simpl; lra).
  replace (INR 1) with 1 by (simpl; lra).
  pose proof sin_24_68 as H2.
  destruct (SIN_bound (1 * 12.34)) as [H1 _].
  lra.
Qed.

Lemma removeAt_middle {A} (a b c : A) : App.removeAt 1 [a; b; c] = [a; c].
Proof. reflexivity. Qed.

(** C5: from the photos [a, b, c] at indices 0, 1, 2, removing index 1
    leaves [a, c]; a keeps index 0 and its target position, c goes from
    index 2 to index 1 and its target position changes. *)
Theorem removing_the_middle_photo
    (a b c : string) (th : Theme) (m : TreeMode) (g : bool)
    (mounted0 : gmap string Polaroids.Item) (s0 : RandState) :
  NoDup [a; b; c] ->
  (forall url old, mounted0 !! url = Some old -> Polaroids.memo_ok old) ->
  App.photos (App.removePhoto 1 (App.mkState m th [a; b; c] g)) = [a; c] /\
  exists a1 c1 a2 c2,
    fst (Polaroids.render [a; b; c] mounted0 s0) !! a = Some a1 /\
    fst (Polaroids.render [a; b; c] mounted0 s0) !! c = Some c1 /\
    fst (Polaroids.render [a; c]
           (fst (Polaroids.render [a; b; c] mounted0 s0))
           (snd (Polaroids.render [a; b; c] mounted0 s0))) !! a = Some a2 /\
    fst (Polaroids.render [a; c]
           (fst (Polaroids.render [a; b; c] mounted0 s0))
           (snd (Polaroids.render [a; b; c] mounted0 s0))) !! c = Some c2 /\
    fst (Polaroids.render [a; c]
           (fst (Polaroids.render [a; b; c] mounted0 s0))
           (snd (Polaroids.render [a; b; c] mounted0 s0))) !! b = None /\
    Polaroids.index a1 = 0%nat /\ Polaroids.index a2 = 0%nat /\
    Polaroids.index c1 = 2%nat /\ Polaroids.index c2 = 1%nat /\
    Polaroids.targetPos a2 = Polaroids.targetPos a1 /\
    Polaroids.targetPos c2 <> Polaroids.targetPos c1.
Proof.
  intros Hnodup Hok0.
  split; [ reflexivity | ].
  rewrite !render_renderItems.
  destruct (renderItems_spec [a; b; c] Hnodup 0 (List.length [a; b; c])
              mounted0 s0) as [Hin1 _].
  set (r1 := Polaroids.renderItems [a; b; c] 0 (List.length [a; b; c])
               mounted0 s0) in *.
  destruct (Hin1 0%nat a eq_refl) as (a1 & Ha1 & Hia1 & Hna1 & _ & Hoka1).
  destruct (Hin1 2%nat c eq_refl) as (c1 & Hc1 & Hic1 & Hnc1 & _ & Hokc1).
  specialize (Hoka1 (Hok0 a)). specialize (Hokc1 (Hok0 c)).
  assert (Hnodup' : NoDup [a; c]).
  { rewrite <- (removeAt_middle a b c). apply removeAt_NoDup. exact Hnodup. }
  assert (Hok1 : forall url old,
             fst r1 !! url = Some old -> Polaroids.memo_ok old).
  { intros url old Hl.
    destruct (decide (url ∈ [a; b; c])) as [Hel | Hnel].
    - apply list_elem_of_lookup_1 in Hel as [j Hj].
      destruct (Hin1 j url Hj) as (it & Hit & _ & _ & _ & Hokit).
      rewrite Hit in Hl. injection Hl as <-. apply Hokit. apply Hok0.
    - destruct (renderItems_spec [a; b; c] Hnodup 0 (List.length [a; b; c])
                  mounted0 s0) as (_ & Hout & _).
      fold r1 in Hout. rewrite (Hout url Hnel) in Hl. discriminate. }
  destruct (renderItems_spec [a; c] Hnodup' 0 (List.length [a; c])
              (fst r1) (snd r1)) as [Hin2 [Hout2 _]].
  destruct (Hin2 0%nat a eq_refl) as (a2 & Ha2 & Hia2 & Hna2 & _ & Hoka2).
  destruct (Hin2 1%nat c eq_refl) as (c2 & Hc2 & Hic2 & Hnc2 & _ & Hokc2).
  specialize (Hoka2 (Hok1 a)). specialize (Hokc2 (Hok1 c)).
  assert (Hb : b ∉ [a; c]).
  { apply NoDup_cons in Hnodup as [Ha Hbc].
    apply NoDup_cons in Hbc as [Hb _].
    rewrite !not_elem_of_cons in Ha, Hb. rewrite !not_elem_of_cons.
    destruct Ha as (Hab & _). destruct Hb as (Hbc' & _).
    repeat split; auto. apply not_elem_of_nil. }
  exists a1, c1, a2, c2.
  unfold Polaroids.memo_ok in Hoka1, Hokc1, Hoka2, Hokc2.
  rewrite Hoka1, Hokc1, Hoka2, Hokc2.
  rewrite Hia1, Hia2, Hic1, Hic2, Hna1, Hna2, Hnc1, Hnc2.
  cbn [Nat.add List.length].
  repeat split; auto.
  - apply targetPosAt_first.
  - intro Heq. pose proof targetPosAt_third_moves as Hlt.
    rewrite Heq in Hlt. lra.
Qed.

Lemma removing_the_middle_photo_witness :
  App.photos (App.removePhoto 1
                (App.mkState CHAOS CLASSIC ["a"; "b"; "c"]%string false)) =
  ["a"; "c"]%string /\
  exists a1 c1 a2 c2,
    fst (Polaroids.render ["a"; "b"; "c"]%string ∅ (mkRand (fun _ => / 2) 0)) !! "a"%string = Some a1 /\
    fst (Polaroids.render ["a"; "b"; "c"]%string ∅ (mkRand (fun _ => / 2) 0)) !! "c"%string = Some c1 /\
    fst (Polaroids.render ["a"; "c"]%string
           (fst (Polaroids.render ["a"; "b"; "c"]%string ∅ (mkRand (fun _ => / 2) 0)))
           (snd (Polaroids.render ["a"; "b"; "c"]%string ∅ (mkRand (fun _ => / 2) 0)))) !! "a"%string = Some a2 /\
    fst (Polaroids.render ["a"; "c"]%string
           (fst (Polaroids.render ["a"; "b"; "c"]%string ∅ (mkRand (fun _ => / 2) 0)))
           (snd (Polaroids.render ["a"; "b"; "c"]%string ∅ (mkRand (fun _ => / 2) 0)))) !! "c"%string = Some c2 /\
    fst (Polaroids.render ["a"; "c"]%string
           (fst (Polaroids.render ["a"; "b"; "c"]%string ∅ (mkRand (fun _ => / 2) 0)))
           (snd (Polaroids.render ["a"; "b"; "c"]%string ∅ (mkRand (fun _ => / 2) 0)))) !! "b"%string = None /\
    Polaroids.index a1 = 0%nat /\ Polaroids.index a2 = 0%nat /\
    Polaroids.index c1 = 2%nat /\ Polaroids.index c2 = 1%nat /\
    Polaroids.targetPos a2 = Polaroids.targetPos a1 /\
    Polaroids.targetPos c2 <> Polaroids.targetPos c1.
Proof.
  apply (removing_the_middle_photo "a" "b" "c" CLASSIC CHAOS false ∅
           (mkRand (fun _ => / 2) 0) NoDup_abc).
  intros url old H. rewrite lookup_empty in H. discriminate.
Defined.

(** * Further properties of the code *)

(** ** utils/math.ts *)

Lemma getTreePosition_on_cone_aux
    (i count : nat) (radiusBase height yOffset : R) :
  (i < count)%nat -> 0 < height ->
  yOffset <= vy (math.getTreePosition i count radiusBase height yOffset)
    < yOffset + height.
Proof.
  intros Hi Hh. unfold math.getTreePosition. cbn [vy].
  assert (Hc : 0 < INR count) by (apply lt_0_INR; lia).
  assert (Hi0 : 0 <= INR i) by apply pos_INR.
  assert (Hic : INR i < INR count) by (apply lt_INR; exact Hi).
  assert (Hq : 0 <= INR i / INR count < 1).
  { split.
    - apply Rmult_le_pos; [ exact Hi0 | left; apply Rinv_0_lt_compat; exact Hc ].
    - apply Rmult_lt_reg_r with (INR count); [ exact Hc | ].
      unfold Rdiv. rewrite Rmult_assoc, Rinv_l by lra. lra. }
  split; nra.
Qed.

(** The spiral slot of the foliage lies on the cone: at height fraction
    [i / count], at distance [radiusBase * (1 - i / count)] from the axis. *)
Theorem getTreePosition_on_cone
    (i count : nat) (radiusBase height yOffset : R) :
  (i < count)%nat -> 0 <= radiusBase -> 0 < height ->
  let p := math.getTreePosition i count radiusBase height yOffset in
  yOffset <= vy p < yOffset + height /\
  math.horizontalDistance p = radiusBase * (1 - INR i / INR count) /\
  math.horizontalDistance p = radiusBase * (1 - (vy p - yOffset) / height).
Proof.
  intros Hi Hr Hh. cbn zeta.
  unfold math.getTreePosition, math.horizontalDistance. cbn [vx vy vz].
  assert (Hc : 0 < INR count) by (apply lt_0_INR; lia).
  assert (Hi0 : 0 <= INR i) by apply pos_INR.
  assert (Hic : INR i < INR count) by (apply lt_INR; exact Hi).
  assert (Hq : 0 <= INR i / INR count < 1).
  { split.
    - apply Rmult_le_pos; [ exact Hi0 | left; apply Rinv_0_lt_compat; exact Hc ].
    - apply Rmult_lt_reg_r with (INR count); [ exact Hc | ].
      unfold Rdiv. rewrite Rmult_assoc, Rinv_l by lra. lra. }
  set (q := INR i / INR count) in *.
  rewrite horizontal_of_polar by nra.
  split; [ split; nra | split; [ reflexivity | ] ].
  field. lra.
Qed.

Lemma getTreePosition_on_cone_witness :
  let p := math.getTreePosition 3 10 (9 / 2) 10 (- 5) in
  - 5 <= vy p < - 5 + 10 /\
  math.horizontalDistance p = 9 / 2 * (1 - INR 3 / INR 10) /\
  math.horizontalDistance p = 9 / 2 * (1 - (vy p - - 5) / 10).
Proof.
  apply (getTreePosition_on_cone 3 10 (9 / 2) 10 (- 5)); [ lia | lra | lra ].
Defined.

Lemma cbrt_cube (w : R) : 0 <= w -> cbrt w * cbrt w * cbrt w = w.
Proof.
  intro Hw. unfold cbrt.
  destruct (Rlt_dec 0 w) as [Hpos | Hnpos].
  - rewrite <- !Rpower_plus.
    replace (/ 3 + / 3 + / 3) with 1 by lra.
    apply Rpower_1. exact Hpos.
  - destruct (Rlt_dec w 0); lra.
Qed.

(** The cube root of the third draw makes the density uniform by volume:
    the point lies within half the radius exactly when that draw is below
    one eighth. *)
Theorem randomSpherePoint_inner_half (radius u v w : R) :
  0 < radius -> 0 <= w < 1 ->
  (Vec.length (math.spherePointAt radius u v w) < radius / 2 <-> w < 1 / 8).
Proof.
  intros Hr Hw. rewrite spherePointAt_length by lra.
  pose proof (cbrt_cube w (proj1 Hw)) as Hcube.
  destruct (cbrt_unit w Hw) as [Hc0 Hc1].
  set (c := cbrt w) in *.
  split.
  - intro Hlt. assert (Hc : c < / 2) by nra.
    assert (Hcc : c * c < / 4) by nra. nra.
  - intro Hlt. destruct (Rlt_dec c (/ 2)) as [Hc | Hc]; [ nra | exfalso ].
    assert (Hge : / 2 <= c) by lra.
    assert (Hcc : / 4 <= c * c) by nra. nra.
Qed.

Lemma randomSpherePoint_inner_half_witness :
  Vec.length (math.spherePointAt 25 0 0 (/ 10)) < 25 / 2 <-> / 10 < 1 / 8.
Proof.
  apply (randomSpherePoint_inner_half 25 0 0 (/ 10)); lra.
Defined.

(** The polar angle [acos(2v - 1)] makes the height of the point on the
    sphere linear in the second draw. *)
Theorem randomSpherePoint_height (radius u v w : R) :
  0 <= v <= 1 ->
  vz (math.spherePointAt radius u v w) = cbrt w * radius * (2 * v - 1).
Proof.
  intro Hv. unfold math.spherePointAt. cbn [vz].
  rewrite cos_acos by lra. reflexivity.
Qed.

Lemma randomSpherePoint_height_witness :
  vz (math.spherePointAt 25 0 (/ 4) (/ 2)) = cbrt (/ 2) * 25 * (2 * / 4 - 1).
Proof. apply (randomSpherePoint_height 25 0 (/ 4) (/ 2)). lra. Defined.

(** [1 - sqrt u] weights the heights by the area of the cone: the point
    is at height fraction at most [h] exactly when the draw is at least
    [(1 - h)^2]. *)
Theorem getTreeSurfacePosition_height_law
    (radiusBase height yOffset u u2 h : R) :
  0 < height -> 0 <= u < 1 -> 0 <= h <= 1 ->
  (vy (math.surfacePositionAt radiusBase height yOffset u u2) - yOffset
     <= h * height
   <-> (1 - h) * (1 - h) <= u).
Proof.
  intros Hh Hu Hfrac. unfold math.surfacePositionAt. cbn [vy].
  pose proof (sqrt_def u (proj1 Hu)) as Hsq.
  destruct (sqrt_unit u Hu) as [Hq0 Hq1].
  set (q := sqrt u) in *.
  split.
  - intro Hle. assert (Hq : 1 - h <= q) by nra. nra.
  - intro Hle. assert (Hq : 1 - h <= q).
    { destruct (Rle_dec (1 - h) q) as [Hok | Hno]; [ exact Hok | exfalso ].
      assert (q < 1 - h) by lra. nra. }
    nra.
Qed.

Lemma getTreeSurfacePosition_height_law_witness :
  vy (math.surfacePositionAt 4 (19 / 2) (- 5) (/ 4) 0) - - 5
    <= / 2 * (19 / 2)
  <-> (1 - / 2) * (1 - / 2) <= / 4.
Proof.
  apply (getTreeSurfacePosition_height_law 4 (19 / 2) (- 5) (/ 4) 0 (/ 2));
    lra.
Defined.

(** ** components/Ornaments.tsx: the instance data *)

Lemma datum_run (pal : list string) (range : R * R) (s : RandState) :
  fst (Ornaments.datum pal range s) =
  let target :=
    math.surfacePositionAt 4.0 9.5 (-5) (draws s (3 + next s))
      (draws s (4 + next s)) in
  Ornaments.mkDatum
    (math.spherePointAt 25 (draws s (next s)) (draws s (1 + next s))
       (draws s (2 + next s)))
    (Vec.add target
       (Vec.multiplyScalar
          (Vec.normalize (vec3 (vx target) 0 (vz target))) 0.25))
    (nth_error pal
       (Z.to_nat (floor (draws s (5 + next s) * INR (List.length pal)))))
    (Ornaments.scaleAt range (draws s (6 + next s)))
    (draws s (7 + next s) * PI * 2)
    ((draws s (8 + next s) - 0.5) * 2)
    (1 + draws s (9 + next s)).
Proof. reflexivity. Qed.

(** A horizontal vector given in polar form has its radius as length. *)
Lemma length_of_horizontal (r theta : R) :
  0 <= r -> Vec.length (vec3 (r * cos theta) 0 (r * sin theta)) = r.
Proof.
  intro Hr. unfold Vec.length. cbn [vx vy vz].
  replace (r * cos theta * (r * cos theta) + 0 * 0 +
           r * sin theta * (r * sin theta))
    with (r * cos theta * (r * cos theta) + r * sin theta * (r * sin theta))
    by ring.
  apply horizontal_of_polar. exact Hr.
Qed.

(** The target of an ornament is the point of the cone surface (base
    radius 4, height 9.5, from y = -5) pushed 0.25 away from the axis, at
    the same height.  When the height draw is 0 the surface point is the
    apex, its horizontal direction is the zero vector, which [normalize]
    leaves as it is, and the ornament stays on the axis. *)
Theorem ornament_target_pushed_outwards
    (pal : list string) (range : R * R) (s : RandState) :
  unit_draws s ->
  let d := fst (Ornaments.datum pal range s) in
  let u := draws s (3 + next s) in
  - 5 <= vy (Ornaments.target d) <= 4.5 /\
  (0 < u -> math.horizontalDistance (Ornaments.target d) = 4 * sqrt u + 0.25) /\
  (u = 0 -> Ornaments.target d = vec3 0 4.5 0) /\
  Vec.length (Ornaments.chaos d) <= 25.
Proof.
  intros Hs. cbn zeta. rewrite datum_run. cbn zeta.
  cbn [Ornaments.target Ornaments.chaos].
  unfold math.surfacePositionAt. cbn [vx vy vz].
  destruct (sqrt_unit _ (Hs (3 + next s)%nat)) as [Hq0 Hq1].
  set (u := draws s (3 + next s)) in *.
  set (theta := draws s (4 + next s) * PI * 2).
  replace (4.0 * (1 - (1 - sqrt u))) with (4 * sqrt u) by lra.
  set (r := 4 * sqrt u).
  assert (Hr : 0 <= r) by (unfold r; lra).
  unfold Vec.normalize. rewrite length_of_horizontal by exact Hr.
  split; [ | split; [ | split ] ].
  - unfold Vec.add, Vec.multiplyScalar. cbn [vx vy vz].
    destruct (Req_dec_T r 0); split; nra.
  - intro Hu.
    assert (Hq : 0 < sqrt u) by (apply sqrt_lt_R0; exact Hu).
    destruct (Req_dec_T r 0) as [Hz | Hnz]; [ unfold r in Hz; lra | ].
    unfold Vec.add, Vec.multiplyScalar, math.horizontalDistance.
    cbn [vx vy vz].
    replace (r * cos theta + r * cos theta * / r * 0.25)
      with ((r + 0.25) * cos theta) by (field; exact Hnz).
    replace (r * sin theta + r * sin theta * / r * 0.25)
      with ((r + 0.25) * sin theta) by (field; exact Hnz).
    apply horizontal_of_polar. lra.
  - intro Hu. assert (Hq : sqrt u = 0) by (rewrite Hu; apply sqrt_0).
    destruct (Req_dec_T r 0) as [Hz | Hnz]; [ | unfold r in Hnz; lra ].
    unfold Vec.add, Vec.multiplyScalar. cbn [vx vy vz].
    unfold r. rewrite Hq. f_equal; lra.
  - rewrite spherePointAt_length; [ | lra | apply Hs ].
    destruct (cbrt_unit _ (Hs (2 + next s)%nat)). nra.
Qed.

Lemma ornament_target_pushed_outwards_witness :
  let s := mkRand (fun _ => / 4) 0 in
  let d := fst (Ornaments.datum [] (1, 2) s) in
  let u := draws s (3 + next s) in
  - 5 <= vy (Ornaments.target d) <= 4.5 /\
  (0 < u -> math.horizontalDistance (Ornaments.target d) = 4 * sqrt u + 0.25) /\
  (u = 0 -> Ornaments.target d = vec3 0 4.5 0) /\
  Vec.length (Ornaments.chaos d) <= 25.
Proof.
  apply (ornament_target_pushed_outwards [] (1, 2) (mkRand (fun _ => / 4) 0)).
  intro n. cbn [draws]. lra.
Defined.

(** [Math.floor] of a product of a unit draw with a length is an index
    below the length. *)
Lemma floor_index (r : R) (n : nat) :
  0 <= r < 1 -> (0 < n)%nat -> (Z.to_nat (floor (r * INR n)) < n)%nat.
Proof.
  intros Hr Hn. unfold floor.
  assert (Hpos : 0 < INR n) by (apply lt_0_INR; exact Hn).
  destruct (base_Int_part (r * INR n)) as [Hle Hgt].
  assert (Hlt : IZR (Int_part (r * INR n)) < IZR (Z.of_nat n)).
  { rewrite <- INR_IZR_INZ. nra. }
  apply lt_IZR in Hlt.
  assert (Hlo : IZR (- 1) < IZR (Int_part (r * INR n))) by nra.
  apply lt_IZR in Hlo. lia.
Qed.

(** The per-instance constants of an ornament: the colour is one of the
    palette (and undefined when the palette is empty), the phase is an
    angle of one turn, the spin rate lies in [-1, 1), the wobble rate in
    [1, 2), and the scale is drawn between the bounds of [scaleRange]. *)
Theorem ornament_instance_parameters
    (pal : list string) (range : R * R) (s : RandState) :
  unit_draws s -> fst range <= snd range ->
  let d := fst (Ornaments.datum pal range s) in
  (pal <> [] -> exists c, Ornaments.color d = Some c /\ In c pal) /\
  (pal = [] -> Ornaments.color d = None) /\
  0 <= Ornaments.phase d < 2 * PI /\
  - 1 <= Ornaments.rotSpeed d < 1 /\
  1 <= Ornaments.wobbleSpeed d < 2 /\
  fst range <= Ornaments.scale d <= snd range.
Proof.
  intros Hs Hrange. cbn zeta. rewrite datum_run. cbn zeta.
  cbn [Ornaments.color Ornaments.phase Ornaments.rotSpeed
       Ornaments.wobbleSpeed Ornaments.scale].
  pose proof PI_RGT_0 as Hpi.
  pose proof (Hs (5 + next s)%nat) as H5.
  pose proof (Hs (6 + next s)%nat) as H6.
  pose proof (Hs (7 + next s)%nat) as H7.
  pose proof (Hs (8 + next s)%nat) as H8.
  pose proof (Hs (9 + next s)%nat) as H9.
  repeat match goal with |- _ /\ _ => split end; try lra; try nra.
  - intro Hne.
    assert (Hlen : (0 < List.length pal)%nat).
    { destruct pal; [ congruence | cbn; lia ]. }
    pose proof (floor_index _ _ H5 Hlen) as Hidx.
    destruct (nth_error pal
                (Z.to_nat (floor (draws s (5 + next s) * INR (List.length pal)))))
      as [c | ] eqn:Hc.
    + exists c. split; [ reflexivity | ].
      eapply nth_error_In. exact Hc.
    + apply nth_error_None in Hc. lia.
  - intros ->. destruct (Z.to_nat _); reflexivity.
  - unfold Ornaments.scaleAt. nra.
  - unfold Ornaments.scaleAt. nra.
Qed.

Lemma ornament_instance_parameters_witness :
  let d := fst (Ornaments.datum ["#D4AF37"; "#C0C0C0"]%string (1, 2)
                  (mkRand (fun _ => / 2) 0)) in
  (["#D4AF37"; "#C0C0C0"]%string <> [] ->
   exists c, Ornaments.color d = Some c /\
             In c ["#D4AF37"; "#C0C0C0"]%string) /\
  (["#D4AF37"; "#C0C0C0"]%string = [] -> Ornaments.color d = None) /\
  0 <= Ornaments.phase d < 2 * PI /\
  - 1 <= Ornaments.rotSpeed d < 1 /\
  1 <= Ornaments.wobbleSpeed d < 2 /\
  fst (1, 2) <= Ornaments.scale d <= snd (1, 2).
Proof.
  apply (ornament_instance_parameters ["#D4AF37"; "#C0C0C0"]%string (1, 2)
           (mkRand (fun _ => / 2) 0)).
  - intro n. cbn [draws]. lra.
  - cbn [fst snd]. lra.
Defined.

Lemma scaleMult_range (p : Ornaments.Props) (d : Ornaments.Datum)
    (time t : R) :
  0.8 <= Ornaments.scaleMult p d time t <= 1.2.
Proof.
  unfold Ornaments.scaleMult.
  destruct (SIN_bound (time * 3 + Ornaments.phase d)) as [Hlo Hhi].
  destruct (Ornaments.emissive p || Ornaments.is_star (Ornaments.type p))%bool;
    [ destruct (Rlt_dec 0.9 t) | ]; lra.
Qed.

(** In a field of any props whose scale bounds are ordered and not negative,
    every instance has its base scale between the bounds, and is rendered,
    pulse included, with a scale between 0.64 times the lower bound and 1.2
    times the upper bound; the pulse factor differs from 1 only in an
    emissive or star field above a progress of 0.9. *)
Theorem ornament_field_scale_bounds (p : Ornaments.Props) (s : RandState) :
  unit_draws s ->
  0 <= fst (Ornaments.scaleRange p) <= snd (Ornaments.scaleRange p) ->
  List.length (fst (Ornaments.field p s)) = Ornaments.count p /\
  Forall (fun d =>
            fst (Ornaments.scaleRange p) <= Ornaments.scale d
              <= snd (Ornaments.scaleRange p) /\
            forall time t, 0 <= t <= 1 ->
              0.64 * fst (Ornaments.scaleRange p)
                <= Ornaments.finalScale p d time t
                <= 1.2 * snd (Ornaments.scaleRange p) /\
              (t <= 0.9 -> Ornaments.scaleMult p d time t = 1))
    (fst (Ornaments.field p s)).
Proof.
  intros Hs Hrange. unfold Ornaments.field.
  destruct (data_scales (Ornaments.count p) (Ornaments.colorPalette p)
              (Ornaments.scaleRange p) s) as [Hlen Hall].
  split; [ exact Hlen | ].
  eapply List.Forall_impl; [ | exact Hall ].
  intros d [k Hk].
  assert (Hbase : fst (Ornaments.scaleRange p) <= Ornaments.scale d
                    <= snd (Ornaments.scaleRange p)).
  { rewrite Hk. unfold Ornaments.scaleAt. pose proof (Hs k). nra. }
  split; [ exact Hbase | ].
  intros time t Ht. split.
  - unfold Ornaments.finalScale, Ornaments.finalScaleWith.
    pose proof (scaleMult_range p d time t) as Hm.
    pose proof (easeOutCubic_unit t Ht) as He.
    set (m := Ornaments.scaleMult p d time t) in *.
    set (e := easeOutCubic t) in *.
    set (b := Ornaments.scale d) in *.
    set (lo := fst (Ornaments.scaleRange p)) in *.
    set (hi := snd (Ornaments.scaleRange p)) in *.
    assert (Hf : 0.8 <= 0.8 + 0.2 * e <= 1) by lra.
    assert (Hbf : 0.8 * lo <= b * (0.8 + 0.2 * e) <= hi) by nra.
    split; nra.
  - intro Hlow. unfold Ornaments.scaleMult.
    destruct (Ornaments.emissive p || Ornaments.is_star (Ornaments.type p))%bool;
      [ destruct (Rlt_dec 0.9 t) | ]; lra.
Qed.

Lemma ornament_field_scale_bounds_witness :
  List.length
    (fst (Ornaments.field
            (Ornaments.mkProps "FORMED" 2 Ornaments.star [] (1, 2) 1 false 0
               (1, 1, 1))
            (mkRand (fun _ => / 2) 0))) = 2%nat.
Proof.
  apply (ornament_field_scale_bounds
           (Ornaments.mkProps "FORMED" 2 Ornaments.star [] (1, 2) 1 false 0
              (1, 1, 1))
           (mkRand (fun _ => / 2) 0)).
  - intro n. cbn [draws]. lra.
  - cbn [Ornaments.scaleRange fst snd]. lra.
Defined.

(** ** The progress controller and the easing *)

(** The cubic ease-out is monotone on [0, 1] and runs ahead of the raw
    progress. *)
Theorem easeOutCubic_monotone (t1 t2 : R) :
  0 <= t1 <= t2 -> t2 <= 1 ->
  easeOutCubic t1 <= easeOutCubic t2 /\ t1 <= easeOutCubic t1.
Proof.
  intros [H0 H12] H1. unfold easeOutCubic, cube.
  set (a := 1 - t1). set (b := 1 - t2).
  assert (Ha : 0 <= a <= 1) by (unfold a; lra).
  assert (Hb : 0 <= b <= a) by (unfold a, b; lra).
  assert (Haa : 0 <= a * a <= 1) by nra.
  assert (Hbb : b * b <= a * a) by nra.
  split.
  - assert (b * b * b <= a * a * a) by nra. lra.
  - assert (a * a * a <= a) by nra. unfold a in *. lra.
Qed.

Lemma easeOutCubic_monotone_witness :
  easeOutCubic (/ 4) <= easeOutCubic (/ 2) /\ / 4 <= easeOutCubic (/ 4).
Proof. apply (easeOutCubic_monotone (/ 4) (/ 2)); lra. Defined.

(** One frame shrinks the distance of the progress to its target by a
    factor strictly between 0 and 1 that depends on the component and the
    elapsed time only: the progress moves towards the target, never past
    it, and at mode FORMED it does not decrease. *)
Theorem tick_contracts (c : Scene.Component) (dt : R) :
  Scene.well_configured c -> Scene.frame_ok c dt ->
  exists k, 0 < k < 1 /\
    forall mode p,
      Scene.tick c mode dt p - targetOf mode = k * (p - targetOf mode) /\
      (p <= 1 -> p <= Scene.tick c "FORMED" dt p <= 1).
Proof.
  intros Hc [Hdt Hshort].
  assert (Hgen : forall f, 0 < f < 1 ->
            (forall mode p, Scene.tick c mode dt p =
                            MathUtils.lerp p (targetOf mode) f) ->
            exists k, 0 < k < 1 /\
              forall mode p,
                Scene.tick c mode dt p - targetOf mode
                  = k * (p - targetOf mode) /\
                (p <= 1 -> p <= Scene.tick c "FORMED" dt p <= 1)).
  { intros f Hf Htick. exists (1 - f). split; [ lra | ].
    intros mode p. rewrite !Htick, targetOf_FORMED. unfold MathUtils.lerp.
    split; [ ring | intro Hp; nra ]. }
  destruct (Scene.uses_damp c) eqn:Hd.
  - destruct (uses_damp_spec c Hd) as [lambda [Hl Htick]].
    apply (Hgen (1 - exp (- lambda * dt))).
    + apply damp_factor_unit; auto.
    + intros mode p. rewrite Htick. reflexivity.
  - destruct c; try discriminate.
    + apply (Hgen 0.02); [ lra | reflexivity ].
    + apply (Hgen 0.02); [ lra | reflexivity ].
    + apply (Hgen (dt * 1.0)); [ lra | reflexivity ].
Qed.

Lemma tick_contracts_witness :
  exists k, 0 < k < 1 /\
    forall mode p,
      Scene.tick Scene.CStar mode (/ 60) p - targetOf mode
        = k * (p - targetOf mode) /\
      (p <= 1 -> p <= Scene.tick Scene.CStar "FORMED" (/ 60) p <= 1).
Proof.
  apply (tick_contracts Scene.CStar (/ 60)).
  - exact I.
  - split; [ lra | exact I ].
Defined.

(** The foliage and the snow count frames, not time: after n frames at
    one mode the distance to the target is 0.98^n times what it was,
    whatever the frames lasted. *)
Theorem foliage_progress_counts_frames (mode : string) (deltas : list R)
    (p : R) :
  Scene.ticks Scene.CFoliage mode deltas p =
    targetOf mode + (p - targetOf mode) * 0.98 ^ List.length deltas /\
  Scene.ticks Scene.CSnow mode deltas p =
    targetOf mode + (p - targetOf mode) * 0.98 ^ List.length deltas.
Proof.
  unfold Scene.ticks. revert p.
  induction deltas as [ | d ds IH ]; intro p; cbn [fold_left List.length pow].
  - split; ring.
  - destruct (IH (Scene.tick Scene.CFoliage mode d p)) as [IHf _].
    destruct (IH (Scene.tick Scene.CSnow mode d p)) as [_ IHs].
    rewrite IHf, IHs. cbn [Scene.tick].
    unfold Foliage.tick, Snow.tick, MathUtils.lerp. split; lra.
Qed.

Lemma smoothstep_unit (e0 e1 x : R) :
  e0 < e1 ->
  0 <= GLSL.smoothstep e0 e1 x <= 1 /\
  (x <= e0 -> GLSL.smoothstep e0 e1 x = 0) /\
  (e1 <= x -> GLSL.smoothstep e0 e1 x = 1).
Proof.
  intro He. unfold GLSL.smoothstep, GLSL.clamp.
  assert (Hd : 0 < e1 - e0) by lra.
  set (q := (x - e0) / (e1 - e0)).
  assert (Hq0 : x <= e0 -> q <= 0).
  { intro Hx. unfold q, Rdiv.
    assert (0 < / (e1 - e0)) by (apply Rinv_0_lt_compat; exact Hd). nra. }
  assert (Hq1 : e1 <= x -> 1 <= q).
  { intro Hx. unfold q.
    apply Rmult_le_reg_r with (e1 - e0); [ exact Hd | ].
    unfold Rdiv. rewrite Rmult_assoc, Rinv_l by lra. lra. }
  assert (Ht : 0 <= Rmin (Rmax q 0) 1 <= 1).
  { split.
    - apply Rmin_glb; [ apply Rmax_r | lra ].
    - apply Rmin_r. }
  split; [ | split ].
  - set (t := Rmin (Rmax q 0) 1) in *.
    assert (Htt : 0 <= t * t <= 1) by nra.
    assert (H1t : 0 <= (1 - t) * (1 - t)) by nra.
    split; [ nra | ].
    assert (0 <= (1 - t) * (1 - t) * (1 + 2 * t)) by (apply Rmult_le_pos; lra).
    nra.
  - intro Hx. rewrite Rmax_right by auto. rewrite Rmin_left by lra. ring.
  - intro Hx. rewrite Rmax_left by (specialize (Hq1 Hx); lra).
    rewrite Rmin_right by auto. ring.
Qed.

(** The shader of the lights clamps the progress it is given: whatever
    value the uniform holds, the point is drawn on the segment from its
    chaos position to its target, at the target once the uniform is 1 or
    more and at the chaos position when it is 0 or less. *)
Theorem lights_position_is_clamped (chaos target : Vector3) (uProgress : R) :
  (exists e, 0 <= e <= 1 /\
             Lights.position chaos target uProgress = GLSL.mix chaos target e) /\
  (1 <= uProgress -> Lights.position chaos target uProgress = target) /\
  (uProgress <= 0 -> Lights.position chaos target uProgress = chaos).
Proof.
  assert (H01 : 0.0 < 1.0) by lra.
  destruct (smoothstep_unit 0.0 1.0 uProgress H01) as (Hrange & Hlow & Hhigh).
  unfold Lights.position.
  split; [ | split ].
  - exists (1.0 - cube (1.0 - GLSL.smoothstep 0.0 1.0 uProgress)).
    split; [ | reflexivity ].
    set (t := GLSL.smoothstep 0.0 1.0 uProgress) in *. unfold cube.
    assert (Ha : 0 <= 1.0 - t <= 1) by lra.
    assert (Haa : 0 <= (1.0 - t) * (1.0 - t) <= 1) by nra.
    split; nra.
  - intro Hp. rewrite Hhigh by lra.
    replace (1.0 - cube (1.0 - 1)) with 1 by (unfold cube; lra).
    apply mix_1.
  - intro Hp. rewrite Hlow by lra.
    replace (1.0 - cube (1.0 - 0)) with 0 by (unfold cube; lra).
    apply mix_0.
Qed.

(** ** components/Polaroids.tsx and App.tsx *)

(** A card is drawn at scale 1 at both ends of the progress and swells to
    at most 1.1 in between. *)
Theorem polaroid_scale_bounds (t : R) :
  0 <= t <= 1 ->
  1 <= Polaroids.scale t <= 1.1 /\
  Polaroids.scale 0 = 1 /\ Polaroids.scale 1 = 1.
Proof.
  intros [H0 H1]. unfold Polaroids.scale.
  pose proof PI_RGT_0 as Hpi.
  assert (Hs0 : 0 <= sin (t * PI)) by (apply sin_ge_0; nra).
  destruct (SIN_bound (t * PI)) as [_ Hs1].
  rewrite Rmult_0_l, sin_0, Rmult_1_l, sin_PI.
  repeat split; lra.
Qed.

Lemma polaroid_scale_bounds_witness :
  1 <= Polaroids.scale (/ 2) <= 1.1 /\
  Polaroids.scale 0 = 1 /\ Polaroids.scale 1 = 1.
Proof. apply (polaroid_scale_bounds (/ 2)). lra. Defined.

(** Every slot of the photo spiral lies between y = -5 and y = 4.2, at a
    distance from the axis of at least 0.5 (the taper is clamped there)
    and less than 4.8. *)
Theorem polaroid_slot_bounds (index total : nat) :
  (index < total)%nat ->
  let p := Polaroids.targetPosAt index total in
  - 5 < vy p <= 4.2 /\
  0.5 <= math.horizontalDistance p < 4.8.
Proof.
  intro Hlt. cbn zeta.
  unfold Polaroids.targetPosAt, math.horizontalDistance. cbn [vx vy vz].
  replace (Nat.max total 1) with total by lia.
  assert (Hn : 0 < INR total) by (apply lt_0_INR; lia).
  assert (Hi0 : 0 <= INR index) by apply pos_INR.
  assert (Hin : INR index < INR total) by (apply lt_INR; exact Hlt).
  assert (Hq : 0 <= INR index / INR total < 1).
  { split.
    - apply Rmult_le_pos; [ exact Hi0 | left; apply Rinv_0_lt_compat; exact Hn ].
    - apply Rmult_lt_reg_r with (INR total); [ exact Hn | ].
      unfold Rdiv. rewrite Rmult_assoc, Rinv_l by lra. lra. }
  set (q := INR index / INR total) in *.
  destruct (SIN_bound (INR index * 12.34)) as [Hs0 Hs1].
  set (sn := sin (INR index * 12.34)) in *.
  set (yPos := (1 - q) * 9.0 * 0.8 + (sn + 1) * 1.0).
  assert (Hy : 0 < yPos <= 9.2) by (unfold yPos; lra).
  set (r := Rmax 0.5 (4.8 * (1 - yPos / 9.0))).
  assert (Hr : 0.5 <= r < 4.8).
  { unfold r. split; [ apply Rmax_l | ].
    apply Rmax_lub_lt; lra. }
  rewrite horizontal_of_polar by lra.
  split; [ lra | exact Hr ].
Qed.

Lemma polaroid_slot_bounds_witness :
  let p := Polaroids.targetPosAt 2 3 in
  - 5 < vy p <= 4.2 /\ 0.5 <= math.horizontalDistance p < 4.8.
Proof. apply (polaroid_slot_bounds 2 3). lia. Defined.

Lemma update_same (it : Polaroids.Item) :
  Polaroids.update (Polaroids.index it) (Polaroids.total it) it = it.
Proof.
  unfold Polaroids.update.
  destruct (decide ((Polaroids.index it, Polaroids.total it) =
                    (Polaroids.index it, Polaroids.total it)));
    [ reflexivity | congruence ].
Qed.

(** After a render the mounted cards are exactly those of the list: a url
    of the list is mounted, any other is not (also one that was mounted
    before), and the empty list leaves nothing mounted. *)
Theorem render_mounts_exactly_the_list
    (urls : list string) (mounted : gmap string Polaroids.Item)
    (s : RandState) :
  NoDup urls ->
  (forall url, is_Some (fst (Polaroids.render urls mounted s) !! url)
               <-> url ∈ urls) /\
  fst (Polaroids.render [] mounted s) = ∅.
Proof.
  intro Hnodup. split; [ | reflexivity ].
  rewrite render_renderItems.
  destruct (renderItems_spec urls Hnodup 0 (List.length urls) mounted s)
    as (Hin & Hout & _).
  intro url. split.
  - intros [it Hit]. destruct (decide (url ∈ urls)) as [Hel | Hnel];
      [ exact Hel | ].
    rewrite (Hout url Hnel) in Hit. discriminate.
  - intro Hel. apply list_elem_of_lookup_1 in Hel as [j Hj].
    destruct (Hin j url Hj) as (it & Hit & _). exists it. exact Hit.
Qed.

Lemma render_mounts_exactly_the_list_witness :
  (forall url,
     is_Some (fst (Polaroids.render ["a"; "b"; "c"]%string ∅
                     (mkRand (fun _ => / 2) 0)) !! url)
     <-> url ∈ ["a"; "b"; "c"]%string) /\
  fst (Polaroids.render [] ∅ (mkRand (fun _ => / 2) 0)) = ∅.
Proof.
  apply (render_mounts_exactly_the_list ["a"; "b"; "c"]%string ∅
           (mkRand (fun _ => / 2) 0) NoDup_abc).
Defined.

(** Rendering the same list again changes nothing: every card keeps all
    it holds, and no random number is drawn. *)
Theorem render_same_list_is_idempotent
    (urls : list string) (mounted : gmap string Polaroids.Item)
    (s : RandState) :
  NoDup urls ->
  Polaroids.render urls
    (fst (Polaroids.render urls mounted s))
    (snd (Polaroids.render urls mounted s)) =
  Polaroids.render urls mounted s.
Proof.
  intro Hnodup. rewrite !render_renderItems.
  destruct (renderItems_spec urls Hnodup 0 (List.length urls) mounted s)
    as (Hin1 & Hout1 & _).
  set (r1 := Polaroids.renderItems urls 0 (List.length urls) mounted s) in *.
  destruct (renderItems_spec urls Hnodup 0 (List.length urls) (fst r1) (snd r1))
    as (Hin2 & Hout2 & Hdraw2).
  set (r2 := Polaroids.renderItems urls 0 (List.length urls) (fst r1) (snd r1))
    in *.
  assert (Hmap : fst r2 = fst r1).
  { apply map_eq. intro url.
    destruct (decide (url ∈ urls)) as [Hel | Hnel].
    - apply list_elem_of_lookup_1 in Hel as [j Hj].
      destruct (Hin1 j url Hj) as (it1 & Hit1 & Hi1 & Hn1 & _).
      destruct (Hin2 j url Hj) as (it2 & Hit2 & _ & _ & Hold & _).
      rewrite Hit1, Hit2. f_equal.
      rewrite (Hold it1 Hit1), <- Hi1, <- Hn1. apply update_same.
    - rewrite (Hout1 url Hnel), (Hout2 url Hnel). reflexivity. }
  assert (Hst : snd r2 = snd r1).
  { apply Hdraw2. intros url Hel.
    apply list_elem_of_lookup_1 in Hel as [j Hj].
    destruct (Hin1 j url Hj) as (it1 & Hit1 & _). exists it1. exact Hit1. }
  destruct r2 as [m2 s2]. destruct r1 as [m1 s1]. cbn [fst snd] in *.
  congruence.
Qed.

Lemma render_same_list_is_idempotent_witness :
  Polaroids.render ["a"; "b"; "c"]%string
    (fst (Polaroids.render ["a"; "b"; "c"]%string ∅ (mkRand (fun _ => / 2) 0)))
    (snd (Polaroids.render ["a"; "b"; "c"]%string ∅ (mkRand (fun _ => / 2) 0)))
  = Polaroids.render ["a"; "b"; "c"]%string ∅ (mkRand (fun _ => / 2) 0).
Proof.
  apply (render_same_list_is_idempotent ["a"; "b"; "c"]%string ∅
           (mkRand (fun _ => / 2) 0) NoDup_abc).
Defined.

(** A url that is not mounted yet gets a fresh card: progress 0, its slot
    computed, and a chaos position within the ball of radius 14. *)
Lemma renderItems_fresh (urls : list string) :
  NoDup urls ->
  forall (i n : nat) (mounted : gmap string Polaroids.Item) (s : RandState)
         (j : nat) (url : string),
    unit_draws s ->
    urls !! j = Some url -> mounted !! url = None ->
    exists it,
      fst (Polaroids.renderItems urls i n mounted s) !! url = Some it /\
      Polaroids.progress it = 0 /\
      Polaroids.targetPos it = Polaroids.targetPosAt (i + j) n /\
      Vec.length (Polaroids.chaosPos it) <= 14.
Proof.
  induction 1 as [ | u rest Hnotin Hnodup IH ];
    intros i n mounted s j url Hs Hj Hnone.
  - rewrite lookup_nil in Hj. discriminate.
  - rewrite renderItems_cons. cbn zeta. cbn [fst snd].
    destruct j as [ | j ]; cbn in Hj.
    + injection Hj as ->. rewrite Hnone, lookup_insert_eq, mount_run.
      eexists. split; [ reflexivity | ].
      cbn [fst Polaroids.progress Polaroids.targetPos Polaroids.chaosPos].
      rewrite Nat.add_0_r. repeat split.
      rewrite spherePointAt_length; [ | lra | apply Hs ].
      destruct (cbrt_unit _ (Hs (S (S (next s))))). nra.
    + assert (Hne : u <> url).
      { intros ->. apply Hnotin. eapply list_elem_of_lookup_2. exact Hj. }
      rewrite lookup_insert_ne by exact Hne.
      replace (i + S j)%nat with (S i + j)%nat by lia.
      apply IH; auto.
      destruct (mounted !! u); [ exact Hs | ].
      rewrite mount_run. cbn [snd]. intro k. apply Hs.
Qed.

(** Uploading photos appends them: the cards already on the tree keep
    their index, chaos position, rotation offset, sway speed and progress,
    and each new photo gets a fresh card after them, at progress 0 and
    with a chaos position within the ball of radius 14. *)
Theorem upload_keeps_cards_and_mounts_new
    (st : App.State) (newPhotos : list string)
    (mounted0 : gmap string Polaroids.Item) (s0 : RandState) :
  NoDup (App.photos st ++ newPhotos) -> unit_draws s0 ->
  let urls := App.photos st in
  let r1 := Polaroids.render urls mounted0 s0 in
  let r2 := Polaroids.render (App.photos (App.addPhotos newPhotos st))
              (fst r1) (snd r1) in
  (forall j url, urls !! j = Some url ->
     exists it1 it2,
       fst r1 !! url = Some it1 /\ fst r2 !! url = Some it2 /\
       Polaroids.index it1 = j /\ Polaroids.index it2 = j /\
       Polaroids.chaosPos it2 = Polaroids.chaosPos it1 /\
       Polaroids.rotationOffset it2 = Polaroids.rotationOffset it1 /\
       Polaroids.swaySpeed it2 = Polaroids.swaySpeed it1 /\
       Polaroids.progress it2 = Polaroids.progress it1) /\
  (forall j url, newPhotos !! j = Some url ->
     exists it,
       fst r2 !! url = Some it /\
       Polaroids.index it = (List.length urls + j)%nat /\
       Polaroids.progress it = 0 /\
       Vec.length (Polaroids.chaosPos it) <= 14).
Proof.
  intros Hnodup Hs0. cbn zeta. cbn [App.addPhotos App.photos].
  destruct st as [m th urls g]. cbn [App.photos] in *.
  rewrite !render_renderItems.
  assert (Hnodup1 : NoDup urls) by (apply NoDup_app in Hnodup; tauto).
  destruct (renderItems_spec urls Hnodup1 0 (List.length urls) mounted0 s0)
    as (Hin1 & Hout1 & _).
  set (r1 := Polaroids.renderItems urls 0 (List.length urls) mounted0 s0) in *.
  destruct (renderItems_spec (urls ++ newPhotos) Hnodup 0
              (List.length (urls ++ newPhotos)) (fst r1) (snd r1))
    as (Hin2 & _ & _).
  split.
  - intros j url Hj.
    destruct (Hin1 j url Hj) as (it1 & Hit1 & Hi1 & _).
    assert (Hj2 : (urls ++ newPhotos) !! j = Some url).
    { apply lookup_app_l_Some. exact Hj. }
    destruct (Hin2 j url Hj2) as (it2 & Hit2 & Hi2 & _ & Hold & _).
    specialize (Hold it1 Hit1).
    destruct (update_fields (0 + j) (List.length (urls ++ newPhotos)) it1)
      as (_ & _ & Hc & Hr & Hw & Hp & _).
    rewrite <- Hold in Hc, Hr, Hw, Hp.
    exists it1, it2. repeat split; auto.
  - intros j url Hj.
    assert (Hj2 : (urls ++ newPhotos) !! (List.length urls + j)%nat = Some url).
    { rewrite lookup_app_r by lia.
      replace (List.length urls + j - List.length urls)%nat with j by lia.
      exact Hj. }
    assert (Hnew : url ∉ urls).
    { apply NoDup_app in Hnodup as (_ & Hdisj & _).
      intro Hel. apply (Hdisj url Hel). eapply list_elem_of_lookup_2. exact Hj. }
    assert (Hs1 : unit_draws (snd r1)).
    { assert (Hgen : forall l i n mm s, unit_draws s ->
                unit_draws (snd (Polaroids.renderItems l i n mm s))).
      { induction l as [ | u l IHl ]; intros i n mm s Hs.
        - exact Hs.
        - rewrite renderItems_cons. cbn zeta. cbn [snd]. apply IHl.
          destruct (mm !! u); [ exact Hs | ].
          rewrite mount_run. cbn [snd]. intro k. apply Hs. }
      apply Hgen. exact Hs0. }
    destruct (renderItems_fresh (urls ++ newPhotos) Hnodup 0
                (List.length (urls ++ newPhotos)) (fst r1) (snd r1)
                (List.length urls + j)%nat url Hs1 Hj2 (Hout1 url Hnew))
      as (it & Hit & Hp & _ & Hc).
    destruct (Hin2 _ url Hj2) as (it' & Hit' & Hi' & _).
    rewrite Hit in Hit'. injection Hit' as <-.
    exists it. repeat split; auto.
Qed.

Lemma upload_keeps_cards_and_mounts_new_witness :
  let st := App.mkState CHAOS CLASSIC ["a"; "b"]%string false in
  let urls := App.photos st in
  let r1 := Polaroids.render urls ∅ (mkRand (fun _ => / 2) 0) in
  let r2 := Polaroids.render (App.photos (App.addPhotos ["c"]%string st))
              (fst r1) (snd r1) in
  (forall j url, urls !! j = Some url ->
     exists it1 it2,
       fst r1 !! url = Some it1 /\ fst r2 !! url = Some it2 /\
       Polaroids.index it1 = j /\ Polaroids.index it2 = j /\
       Polaroids.chaosPos it2 = Polaroids.chaosPos it1 /\
       Polaroids.rotationOffset it2 = Polaroids.rotationOffset it1 /\
       Polaroids.swaySpeed it2 = Polaroids.swaySpeed it1 /\
       Polaroids.progress it2 = Polaroids.progress it1) /\
  (forall j url, ["c"]%string !! j = Some url ->
     exists it,
       fst r2 !! url = Some it /\
       Polaroids.index it = (List.length urls + j)%nat /\
       Polaroids.progress it = 0 /\
       Vec.length (Polaroids.chaosPos it) <= 14).
Proof.
  apply (upload_keeps_cards_and_mounts_new
           (App.mkState CHAOS CLASSIC ["a"; "b"]%string false) ["c"]%string ∅
           (mkRand (fun _ => / 2) 0)).
  - exact NoDup_abc.
  - intro n. cbn [draws]. lra.
Defined.

(** Removing a photo at an index outside the list changes nothing; inside
    the list it shortens the list by one and leaves the mode and the theme
    alone; and removing the photo that was just added gives the state
    back. *)
Theorem removePhoto_behaviour (k : nat) (s : App.State) (url : string) :
  ((List.length (App.photos s) <= k)%nat -> App.removePhoto k s = s) /\
  ((k < List.length (App.photos s))%nat ->
   List.length (App.photos (App.removePhoto k s)) =
   (List.length (App.photos s) - 1)%nat) /\
  App.mode (App.removePhoto k s) = App.mode s /\
  App.theme (App.removePhoto k s) = App.theme s /\
  App.removePhoto (List.length (App.photos s)) (App.addPhotos [url] s) = s.
Proof.
  destruct s as [m th ph g]. unfold App.removePhoto, App.addPhotos.
  cbn [App.photos App.mode App.theme App.isGalleryOpen].
  rewrite !removeAt_delete.
  repeat split.
  - intro Hk. f_equal. rewrite delete_take_drop.
    rewrite take_ge by exact Hk. rewrite drop_ge by lia. apply app_nil_r.
  - intro Hk. rewrite length_delete; [ reflexivity | ].
    apply lookup_lt_is_Some. exact Hk.
  - f_equal. rewrite delete_middle. apply app_nil_r.
Qed.


(** ** components/Star.tsx, Trunk.tsx and Ribbon.tsx *)

Lemma easeOutCubic_le (t1 t2 : R) :
  0 <= t1 <= t2 -> t2 <= 1 -> easeOutCubic t1 <= easeOutCubic t2.
Proof.
  intros [H0 H12] H1. unfold easeOutCubic, cube.
  set (a := 1 - t1). set (b := 1 - t2).
  assert (Ha : 0 <= a <= 1) by (unfold a; lra).
  assert (Hb : 0 <= b <= a) by (unfold a, b; lra).
  assert (Hbb : b * b <= a * a) by nra.
  assert (b * b * b <= a * a * a) by nra. lra.
Qed.

(** The star grows as the tree assembles: at any moment its scale does not
    decrease with the progress; it is at most 0.42 when scattered, at
    least 0.95 when formed, and between 0.38 and 1.05 throughout. *)
Theorem star_scale_grows (time t1 t2 : R) :
  0 <= t1 <= t2 -> t2 <= 1 ->
  Star.scale time t1 <= Star.scale time t2 /\
  0.38 <= Star.scale time t1 <= 1.05 /\
  Star.scale time 0 <= 0.42 /\
  0.95 <= Star.scale time 1.
Proof.
  intros H12 H1. unfold Star.scale.
  destruct (SIN_bound (time * 3)) as [Hs0 Hs1].
  set (sn := sin (time * 3)) in *.
  pose proof (easeOutCubic_le t1 t2 H12 H1) as Hmono.
  assert (He1 : 0 <= easeOutCubic t1 <= 1) by (apply easeOutCubic_unit; lra).
  rewrite easeOutCubic_0, easeOutCubic_1.
  set (e1 := easeOutCubic t1) in *. set (e2 := easeOutCubic t2) in *.
  repeat split; nra.
Qed.

Lemma star_scale_grows_witness :
  Star.scale 0 (/ 4) <= Star.scale 0 (/ 2) /\
  0.38 <= Star.scale 0 (/ 4) <= 1.05 /\
  Star.scale 0 0 <= 0.42 /\
  0.95 <= Star.scale 0 1.
Proof. apply (star_scale_grows 0 (/ 4) (/ 2)); lra. Defined.

Lemma trunk_datum_run (s : RandState) :
  fst (Trunk.datum s) =
  let h := (draws s (3 + next s) * 10) - 6 in
  let maxR := 0.8 * (1 - (h + 6) / 10 * 0.7) in
  let r := sqrt (draws s (4 + next s)) * maxR in
  let theta := draws s (5 + next s) * PI * 2 in
  Trunk.mkDatum
    (math.spherePointAt 8 (draws s (next s)) (draws s (1 + next s))
       (draws s (2 + next s)))
    (vec3 (r * cos theta) h (r * sin theta))
    (draws s (6 + next s) * 0.4 + 0.3)
    (draws s (7 + next s)).
Proof. reflexivity. Qed.

(** The target of a trunk piece lies in the tapered spine: between y = -6
    and y = 4, within the radius 0.8 (1 - 0.7 (y + 6) / 10) of its height,
    which is at most 0.8; its scale lies in [0.3, 0.7), its spin rate in
    [0, 1), and its chaos position within the ball of radius 8. *)
Theorem trunk_target_in_spine (s : RandState) :
  unit_draws s ->
  let d := fst (Trunk.datum s) in
  - 6 <= vy (Trunk.target d) < 4 /\
  math.horizontalDistance (Trunk.target d)
    <= 0.8 * (1 - 0.7 * ((vy (Trunk.target d) + 6) / 10)) <= 0.8 /\
  0.3 <= Trunk.scale d < 0.7 /\
  0 <= Trunk.rotationSpeed d < 1 /\
  Vec.length (Trunk.chaos d) <= 8.
Proof.
  intro Hs. cbn zeta. rewrite trunk_datum_run. cbn zeta.
  cbn [Trunk.target Trunk.scale Trunk.rotationSpeed Trunk.chaos].
  unfold math.horizontalDistance. cbn [vx vy vz].
  pose proof (Hs (3 + next s)%nat) as H3.
  pose proof (Hs (6 + next s)%nat) as H6.
  pose proof (Hs (7 + next s)%nat) as H7.
  destruct (sqrt_unit _ (Hs (4 + next s)%nat)) as [Hq0 Hq1].
  set (q := sqrt (draws s (4 + next s))) in *.
  set (h := draws s (3 + next s) * 10 - 6) in *.
  assert (Hh : - 6 <= h < 4) by (unfold h; lra).
  set (maxR := 0.8 * (1 - (h + 6) / 10 * 0.7)).
  assert (HmaxR : 0.24 <= maxR <= 0.8) by (unfold maxR; lra).
  rewrite horizontal_of_polar by nra.
  repeat match goal with |- _ /\ _ => split end; try lra.
  - unfold maxR in *. nra.
  - rewrite spherePointAt_length; [ | lra | apply Hs ].
    destruct (cbrt_unit _ (Hs (2 + next s)%nat)). nra.
Qed.

Lemma trunk_target_in_spine_witness :
  let d := fst (Trunk.datum (mkRand (fun _ => / 2) 0)) in
  - 6 <= vy (Trunk.target d) < 4 /\
  math.horizontalDistance (Trunk.target d)
    <= 0.8 * (1 - 0.7 * ((vy (Trunk.target d) + 6) / 10)) <= 0.8 /\
  0.3 <= Trunk.scale d < 0.7 /\
  0 <= Trunk.rotationSpeed d < 1 /\
  Vec.length (Trunk.chaos d) <= 8.
Proof.
  apply (trunk_target_in_spine (mkRand (fun _ => / 2) 0)).
  intro n. cbn [draws]. lra.
Defined.

Lemma rotations_cons (t delta time : R) (i : nat) (d : Trunk.Datum)
    (ds : list Trunk.Datum) (rot : R * R) :
  Trunk.rotations t delta time i (d :: ds) rot =
  (Trunk.rotate t delta time i d rot ::
     fst (Trunk.rotations t delta time (S i) ds
            (Trunk.rotate t delta time i d rot)),
   snd (Trunk.rotations t delta time (S i) ds
          (Trunk.rotate t delta time i d rot))).
Proof.
  cbn [Trunk.rotations].
  destruct (Trunk.rotations t delta time (S i) ds
              (Trunk.rotate t delta time i d rot)). reflexivity.
Qed.

(** While the trunk is scattered (progress below 0.2) its pieces spin
    through the one object they share: the angles written for piece k are
    the angles the object held before the loop plus delta times the sum
    of the spin rates of the pieces up to k, and the object keeps the
    total for the next frame. *)
Theorem trunk_spin_accumulates (t delta time : R) (ds : list Trunk.Datum) :
  t < 0.2 ->
  forall (i : nat) (rot : R * R),
    let sum l := fold_right Rplus 0 (map Trunk.rotationSpeed l) in
    snd (Trunk.rotations t delta time i ds rot) =
      (fst rot + delta * sum ds, snd rot + delta * sum ds) /\
    forall (k : nat) (d : Trunk.Datum),
      ds !! k = Some d ->
      fst (Trunk.rotations t delta time i ds rot) !! k =
      Some (fst rot + delta * sum (take (S k) ds),
            snd rot + delta * sum (take (S k) ds)).
Proof.
  intro Ht. cbn zeta.
  induction ds as [ | d0 ds IH ]; intros i [rx rz].
  - split.
    + cbn. f_equal; lra.
    + intros k d Hk. rewrite lookup_nil in Hk. discriminate.
  - rewrite rotations_cons. cbn [fst snd].
    assert (Hrot : Trunk.rotate t delta time i d0 (rx, rz) =
                   (rx + delta * Trunk.rotationSpeed d0,
                    rz + delta * Trunk.rotationSpeed d0)).
    { unfold Trunk.rotate. destruct (Rlt_dec t 0.2); [ reflexivity | lra ]. }
    rewrite Hrot.
    destruct (IH (S i) (rx + delta * Trunk.rotationSpeed d0,
                        rz + delta * Trunk.rotationSpeed d0))
      as [IHfinal IHeach].
    cbn [fst snd] in IHfinal, IHeach.
    split.
    + rewrite IHfinal. cbn [map fold_right]. f_equal; lra.
    + intros [ | k ] d Hk.
      * cbn [lookup list_lookup firstn]. rewrite take_0.
        cbn [map fold_right]. f_equal. f_equal; lra.
      * change ((d0 :: ds) !! S k) with (ds !! k) in Hk.
        change ((?x :: ?l) !! S k) with (l !! k).
        rewrite (IHeach k d Hk).
        rewrite (firstn_cons (S k) d0 ds). cbn [map fold_right].
        f_equal. f_equal; lra.
Qed.

Lemma trunk_spin_accumulates_witness :
  snd (Trunk.rotations 0 1 0 0
         [Trunk.mkDatum (vec3 0 0 0) (vec3 0 0 0) 1 (/ 2);
          Trunk.mkDatum (vec3 0 0 0) (vec3 0 0 0) 1 (/ 4)] (0, 0)) =
  (0 + 1 * fold_right Rplus 0
             (map Trunk.rotationSpeed
                [Trunk.mkDatum (vec3 0 0 0) (vec3 0 0 0) 1 (/ 2);
                 Trunk.mkDatum (vec3 0 0 0) (vec3 0 0 0) 1 (/ 4)]),
   0 + 1 * fold_right Rplus 0
             (map Trunk.rotationSpeed
                [Trunk.mkDatum (vec3 0 0 0) (vec3 0 0 0) 1 (/ 2);
                 Trunk.mkDatum (vec3 0 0 0) (vec3 0 0 0) 1 (/ 4)])).
Proof.
  apply (trunk_spin_accumulates 0 1 0
           [Trunk.mkDatum (vec3 0 0 0) (vec3 0 0 0) 1 (/ 2);
            Trunk.mkDatum (vec3 0 0 0) (vec3 0 0 0) 1 (/ 4)]
           ltac:(lra) 0%nat (0, 0)).
Defined.

(** The ribbon is a helix that widens downwards: segment i of count lies
    at height 5.5 - 11 i / count, at distance 0.5 + 5 i / count from the
    axis, and looks at the place of the segment after it; its scale
    stretches between 0.9 and 1.1 along z only. *)
Theorem ribbon_helix (i count : nat) (time : R) :
  (i < count)%nat ->
  let p := Ribbon.targetAt i count in
  vy p = 5.5 - 11 * (INR i / INR count) /\
  - 5.5 < vy p <= 5.5 /\
  math.horizontalDistance p = 0.5 + 5 * (INR i / INR count) /\
  0.5 <= math.horizontalDistance p < 5.5 /\
  Ribbon.lookAtTargetAt i count = Ribbon.targetAt (i + 1) count /\
  vx (Ribbon.scaleAt i time) = 1 /\ vy (Ribbon.scaleAt i time) = 1 /\
  0.9 <= vz (Ribbon.scaleAt i time) <= 1.1.
Proof.
  intro Hi. cbn zeta.
  unfold Ribbon.targetAt, Ribbon.scaleAt, math.horizontalDistance.
  cbn [vx vy vz].
  assert (Hc : 0 < INR count) by (apply lt_0_INR; lia).
  assert (Hi0 : 0 <= INR i) by apply pos_INR.
  assert (Hic : INR i < INR count) by (apply lt_INR; exact Hi).
  assert (Hq : 0 <= INR i / INR count < 1).
  { split.
    - apply Rmult_le_pos; [ exact Hi0 | left; apply Rinv_0_lt_compat; exact Hc ].
    - apply Rmult_lt_reg_r with (INR count); [ exact Hc | ].
      unfold Rdiv. rewrite Rmult_assoc, Rinv_l by lra. lra. }
  set (q := INR i / INR count) in *.
  replace (5.0 * (1 - ((1 - q) * 11.0 - 5.5 + 5.5) / 11.0) + 0.5)
    with (0.5 + 5 * q) by lra.
  rewrite horizontal_of_polar by lra.
  destruct (SIN_bound (time * 3 + INR i * 0.05)) as [Hs0 Hs1].
  repeat match goal with |- _ /\ _ => split end; try lra.
  reflexivity.
Qed.

Lemma ribbon_helix_witness :
  let p := Ribbon.targetAt 100 400 in
  vy p = 5.5 - 11 * (INR 100 / INR 400) /\
  - 5.5 < vy p <= 5.5 /\
  math.horizontalDistance p = 0.5 + 5 * (INR 100 / INR 400) /\
  0.5 <= math.horizontalDistance p < 5.5 /\
  Ribbon.lookAtTargetAt 100 400 = Ribbon.targetAt (100 + 1) 400 /\
  vx (Ribbon.scaleAt 100 0) = 1 /\ vy (Ribbon.scaleAt 100 0) = 1 /\
  0.9 <= vz (Ribbon.scaleAt 100 0) <= 1.1.
Proof. apply (ribbon_helix 100 400 0). lia. Defined.

(** ** The particle fields: Foliage.tsx, Snow.tsx and Lights.tsx *)

Lemma foliage_point_run (i count : nat) (radiusBase : R) (s : RandState) :
  fst (Foliage.point i count radiusBase s) =
  Foliage.mkPoint
    (math.spherePointAt 25 (draws s (next s)) (draws s (1 + next s))
       (draws s (2 + next s)))
    (Vec.add (math.getTreePosition i count radiusBase 10 (-5))
       (vec3 ((draws s (3 + next s) - 0.5) * 0.8)
             ((draws s (4 + next s) - 0.5) * 0.8)
             ((draws s (5 + next s) - 0.5) * 0.8)))
    (draws s (6 + next s)).
Proof. reflexivity. Qed.

(** A foliage point has its target within 0.4 on each axis of its slot on
    the spiral, hence between y = -5.4 and y = 5.4; its chaos position lies
    within the ball of radius 25 and its random seed in [0, 1). *)
Theorem foliage_target_near_spiral
    (i count : nat) (radiusBase : R) (s : RandState) :
  (i < count)%nat -> 0 <= radiusBase -> unit_draws s ->
  let pt := fst (Foliage.point i count radiusBase s) in
  let slot := math.getTreePosition i count radiusBase 10 (-5) in
  Rabs (vx (Foliage.aTarget pt) - vx slot) <= 0.4 /\
  Rabs (vy (Foliage.aTarget pt) - vy slot) <= 0.4 /\
  Rabs (vz (Foliage.aTarget pt) - vz slot) <= 0.4 /\
  - 5.4 <= vy (Foliage.aTarget pt) < 5.4 /\
  Vec.length (Foliage.aChaos pt) <= 25 /\
  0 <= Foliage.aRandom pt < 1.
Proof.
  intros Hi Hr Hs. cbn zeta. rewrite foliage_point_run.
  cbn [Foliage.aTarget Foliage.aChaos Foliage.aRandom].
  destruct (getTreePosition_on_cone_aux i count radiusBase 10 (-5) Hi
              ltac:(lra)) as [Hy0 Hy1].
  set (slot := math.getTreePosition i count radiusBase 10 (-5)) in *.
  unfold Vec.add. cbn [vx vy vz].
  pose proof (Hs (3 + next s)%nat) as H3.
  pose proof (Hs (4 + next s)%nat) as H4.
  pose proof (Hs (5 + next s)%nat) as H5.
  repeat match goal with |- _ /\ _ => split end;
    try (apply Rabs_le; lra); try lra; try apply Hs.
  rewrite spherePointAt_length; [ | lra | apply Hs ].
  destruct (cbrt_unit _ (Hs (2 + next s)%nat)). nra.
Qed.

Lemma foliage_target_near_spiral_witness :
  let pt := fst (Foliage.point 3 10 (9 / 2) (mkRand (fun _ => / 2) 0)) in
  let slot := math.getTreePosition 3 10 (9 / 2) 10 (-5) in
  Rabs (vx (Foliage.aTarget pt) - vx slot) <= 0.4 /\
  Rabs (vy (Foliage.aTarget pt) - vy slot) <= 0.4 /\
  Rabs (vz (Foliage.aTarget pt) - vz slot) <= 0.4 /\
  - 5.4 <= vy (Foliage.aTarget pt) < 5.4 /\
  Vec.length (Foliage.aChaos pt) <= 25 /\
  0 <= Foliage.aRandom pt < 1.
Proof.
  apply (foliage_target_near_spiral 3 10 (9 / 2) (mkRand (fun _ => / 2) 0)).
  - lia.
  - lra.
  - intro n. cbn [draws]. lra.
Defined.

(** The foliage shaders: the sparkle alpha stays in [0.2, 1]; the green
    flash is off unless the blink wave is above 0.8, and its intensity is
    at most 0.4 + 0.6 progress, so at most 0.4 while the tree is scattered
    and at most 1 once it is formed. *)
Theorem foliage_shader_ranges (aRandom uTime vProgress : R) :
  0 <= vProgress <= 1 ->
  0.2 <= Foliage.vAlpha aRandom uTime <= 1 /\
  0 <= Foliage.flashIntensity aRandom uTime vProgress
    <= 0.4 + 0.6 * vProgress /\
  (sin (uTime * 3.0 + aRandom * 100.0) <= 0.8 ->
   Foliage.flashIntensity aRandom uTime vProgress = 0).
Proof.
  intro Hp. unfold Foliage.vAlpha, Foliage.flashIntensity.
  destruct (SIN_bound (uTime * 2.0 + aRandom * 20.0)) as [Ha0 Ha1].
  assert (H81 : 0.8 < 1.0) by lra.
  destruct (smoothstep_unit 0.8 1.0 (sin (uTime * 3.0 + aRandom * 100.0)) H81)
    as (Hf & Hlow & _).
  set (flash := GLSL.smoothstep 0.8 1.0 (sin (uTime * 3.0 + aRandom * 100.0)))
    in *.
  split; [ lra | split; [ split; nra | ] ].
  intro Hs. rewrite (Hlow Hs). ring.
Qed.

Lemma foliage_shader_ranges_witness :
  0.2 <= Foliage.vAlpha 0 0 <= 1 /\
  0 <= Foliage.flashIntensity 0 0 (/ 2) <= 0.4 + 0.6 * / 2 /\
  (sin (0 * 3.0 + 0 * 100.0) <= 0.8 ->
   Foliage.flashIntensity 0 0 (/ 2) = 0).
Proof. apply (foliage_shader_ranges 0 0 (/ 2)). lra. Defined.

Lemma snow_flake_run (s : RandState) :
  fst (Snow.flake s) =
  let tp := math.surfacePositionAt 4.6 9.8 (-5) (draws s (3 + next s))
              (draws s (4 + next s)) in
  Snow.mkFlake
    (math.spherePointAt 30 (draws s (next s)) (draws s (1 + next s))
       (draws s (2 + next s)))
    (vec3 (vx tp) (vy tp + draws s (5 + next s) * 0.2) (vz tp))
    (draws s (6 + next s))
    (if Rlt_dec 0.6 (draws s (7 + next s)) then 1.0 else 0.0).
Proof. reflexivity. Qed.

(** A snow flake lands on the cone of base radius 4.6 and height 9.8
    lifted by less than 0.2: its target lies between y = -5 and y = 5 at
    distance 4.6 sqrt(u) from the axis; it is glitter exactly when its type
    draw exceeds 0.6; its chaos position lies within the ball of radius
    30. *)
Theorem snow_flake_landing (s : RandState) :
  unit_draws s ->
  let f := fst (Snow.flake s) in
  - 5 <= vy (Snow.aTarget f) < 5 /\
  math.horizontalDistance (Snow.aTarget f) = 4.6 * sqrt (draws s (3 + next s)) /\
  (0.6 < draws s (7 + next s) -> Snow.aType f = 1) /\
  (draws s (7 + next s) <= 0.6 -> Snow.aType f = 0) /\
  Vec.length (Snow.aChaos f) <= 30.
Proof.
  intro Hs. cbn zeta. rewrite snow_flake_run. cbn zeta.
  cbn [Snow.aTarget Snow.aType Snow.aChaos].
  unfold math.surfacePositionAt, math.horizontalDistance. cbn [vx vy vz].
  destruct (sqrt_unit _ (Hs (3 + next s)%nat)) as [Hq0 Hq1].
  set (q := sqrt (draws s (3 + next s))) in *.
  pose proof (Hs (5 + next s)%nat) as H5.
  replace (4.6 * (1 - (1 - q))) with (4.6 * q) by lra.
  rewrite horizontal_of_polar by lra.
  repeat match goal with |- _ /\ _ => split end; try lra.
  - intro Hbig. destruct (Rlt_dec 0.6 (draws s (7 + next s))); lra.
  - intro Hsmall. destruct (Rlt_dec 0.6 (draws s (7 + next s))); lra.
  - rewrite spherePointAt_length; [ | lra | apply Hs ].
    destruct (cbrt_unit _ (Hs (2 + next s)%nat)). nra.
Qed.

Lemma snow_flake_landing_witness :
  let s := mkRand (fun _ => / 2) 0 in
  let f := fst (Snow.flake s) in
  - 5 <= vy (Snow.aTarget f) < 5 /\
  math.horizontalDistance (Snow.aTarget f) = 4.6 * sqrt (draws s (3 + next s)) /\
  (0.6 < draws s (7 + next s) -> Snow.aType f = 1) /\
  (draws s (7 + next s) <= 0.6 -> Snow.aType f = 0) /\
  Vec.length (Snow.aChaos f) <= 30.
Proof.
  apply (snow_flake_landing (mkRand (fun _ => / 2) 0)).
  intro n. cbn [draws]. lra.
Defined.

(** The alpha of a snow fragment is never negative: the sparkle of the
    vertex shader lies in [0, 1] for either type, and a fragment at squared
    distance r from the centre of its point is discarded when r > 1 and
    otherwise gets an alpha in [0, 1]. *)
Theorem snow_alpha_is_not_negative (aType aRandom uTime r : R) :
  0 <= r ->
  0 <= Snow.vAlpha aType aRandom uTime <= 1 /\
  match Snow.fragmentAlpha aType (Snow.vAlpha aType aRandom uTime) r with
  | Some alpha => r <= 1 /\ 0 <= alpha <= 1
  | None => 1 < r
  end.
Proof.
  intro Hr.
  assert (Hv : 0 <= Snow.vAlpha aType aRandom uTime <= 1).
  { unfold Snow.vAlpha.
    destruct (SIN_bound (uTime * 8.0 + aRandom * 50.0)).
    destruct (Rlt_dec 0.5 aType); lra. }
  split; [ exact Hv | ].
  set (v := Snow.vAlpha aType aRandom uTime) in *.
  unfold Snow.fragmentAlpha.
  destruct (Rlt_dec 1.0 r) as [Hout | Hin]; [ lra | ].
  assert (Hr1 : r <= 1) by lra.
  split; [ exact Hr1 | ].
  split; [ apply Rle_trans with 0.0; [ lra | apply Rmax_l ] | ].
  apply Rmax_lub; [ lra | ].
  destruct (Rlt_dec aType 0.5).
  - nra.
  - unfold cube. assert (0 <= r * r <= 1) by nra.
    assert (0 <= r * r * r <= 1) by nra. nra.
Qed.

Lemma snow_alpha_is_not_negative_witness :
  0 <= Snow.vAlpha 1 0 0 <= 1 /\
  match Snow.fragmentAlpha 1 (Snow.vAlpha 1 0 0) (/ 2) with
  | Some alpha => / 2 <= 1 /\ 0 <= alpha <= 1
  | None => 1 < / 2
  end.
Proof. apply (snow_alpha_is_not_negative 1 0 0 (/ 2)). lra. Defined.

Lemma light_run (s : RandState) :
  fst (Lights.light s) =
  Lights.mkLight
    (math.spherePointAt 14 (draws s (next s)) (draws s (1 + next s))
       (draws s (2 + next s)))
    (math.surfacePositionAt 4.6 9.8 (-5) (draws s (3 + next s))
       (draws s (4 + next s)))
    (draws s (5 + next s) * PI * 2)
    (if (if Rlt_dec 0.85 (draws s (6 + next s)) then true else false)
     then 50.0 + draws s (7 + next s) * 20.0
     else 15.0 + draws s (7 + next s) * 8.0).
Proof. reflexivity. Qed.

(** A light is big (size in [50, 70)) exactly when its draw exceeds 0.85
    and small (size in [15, 23)) otherwise; its phase is an angle of one
    turn; its drawn size pulses between 0.7 and 1.3 times its size, and
    its alpha between 0.6 and 1. *)
Theorem light_sizes (s : RandState) (uTime : R) :
  unit_draws s ->
  let l := fst (Lights.light s) in
  (0.85 < draws s (6 + next s) -> 50 <= Lights.aSize l < 70) /\
  (draws s (6 + next s) <= 0.85 -> 15 <= Lights.aSize l < 23) /\
  0 <= Lights.aPhase l < 2 * PI /\
  0.7 * Lights.aSize l <= Lights.pointSize (Lights.aSize l) (Lights.aPhase l) uTime
    <= 1.3 * Lights.aSize l /\
  0.6 <= Lights.vAlpha (Lights.aPhase l) uTime <= 1.
Proof.
  intro Hs. cbn zeta. rewrite light_run.
  cbn [Lights.aSize Lights.aPhase].
  pose proof PI_RGT_0 as Hpi.
  pose proof (Hs (5 + next s)%nat) as H5.
  pose proof (Hs (7 + next s)%nat) as H7.
  unfold Lights.pointSize, Lights.vAlpha.
  set (ph := draws s (5 + next s) * PI * 2).
  destruct (SIN_bound (uTime * 3.0 + ph)) as [Hp0 Hp1].
  destruct (SIN_bound (uTime * 4.0 + ph)) as [Ha0 Ha1].
  destruct (Rlt_dec 0.85 (draws s (6 + next s))) as [Hbig | Hsmall];
    cbv iota.
  - set (sz := 50.0 + draws s (7 + next s) * 20.0).
    assert (Hsz : 50 <= sz < 70) by (unfold sz; lra).
    repeat match goal with |- _ /\ _ => split end;
      try (intros; lra); try (unfold ph; nra); nra.
  - set (sz := 15.0 + draws s (7 + next s) * 8.0).
    assert (Hsz : 15 <= sz < 23) by (unfold sz; lra).
    repeat match goal with |- _ /\ _ => split end;
      try (intros; lra); try (unfold ph; nra); nra.
Qed.

Lemma light_sizes_witness :
  let s := mkRand (fun _ => / 2) 0 in
  let l := fst (Lights.light s) in
  (0.85 < draws s (6 + next s) -> 50 <= Lights.aSize l < 70) /\
  (draws s (6 + next s) <= 0.85 -> 15 <= Lights.aSize l < 23) /\
  0 <= Lights.aPhase l < 2 * PI /\
  0.7 * Lights.aSize l <= Lights.pointSize (Lights.aSize l) (Lights.aPhase l) 0
    <= 1.3 * Lights.aSize l /\
  0.6 <= Lights.vAlpha (Lights.aPhase l) 0 <= 1.
Proof.
  apply (light_sizes (mkRand (fun _ => / 2) 0) 0).
  intro n. cbn [draws]. lra.
Defined.

(** ** components/Scene.tsx *)

Lemma ornamentFields_cases (mode : string) (theme : Theme) :
  Scene.ornamentFields mode theme =
  if Scene.isIcy theme then
    [Ornaments.mkProps mode 40 Ornaments.cylinder
       (Scene.pcane (Scene.palettes theme)) (0.2, 0.3) 0.4 false 0
       (0.2, 3.0, 0.2);
     Ornaments.mkProps mode 60 Ornaments.cone
       (Scene.pbell (Scene.palettes theme)) (0.25, 0.4) 0.6 false 0 (1, 1, 1);
     Ornaments.mkProps mode 70 Ornaments.dodecahedron
       (Scene.ppine (Scene.palettes theme)) (0.3, 0.4) 0.8 false 0
       (0.7, 1.2, 0.7);
     Ornaments.mkProps mode 350 Ornaments.sphere
       (Scene.pball (Scene.palettes theme)) (0.15, 0.25) 0.4 false 0 (1, 1, 1);
     Ornaments.mkProps mode 120 Ornaments.star
       (Scene.pstars (Scene.palettes theme)) (0.2, 0.35) 0.3 false 0 (1, 1, 1)]
  else
    [Ornaments.mkProps mode 60 Ornaments.box
       (Scene.pbox (Scene.palettes theme)) (0.3, 0.5) 0.9 false 0 (1, 1, 1);
     Ornaments.mkProps mode 50 Ornaments.cylinder
       (Scene.pdrum (Scene.palettes theme)) (0.3, 0.45) 0.7 false 0 (1, 0.6, 1);
     Ornaments.mkProps mode 80 Ornaments.cylinder
       (Scene.pcane (Scene.palettes theme)) (0.2, 0.3) 0.4 false 0
       (0.2, 3.0, 0.2);
     Ornaments.mkProps mode 60 Ornaments.cone
       (Scene.pbell (Scene.palettes theme)) (0.25, 0.4) 0.6 false 0 (1, 1, 1);
     Ornaments.mkProps mode 70 Ornaments.dodecahedron
       (Scene.ppine (Scene.palettes theme)) (0.3, 0.4) 0.8 false 0
       (0.7, 1.2, 0.7);
     Ornaments.mkProps mode 40 Ornaments.flat_box
       (Scene.pflat (Scene.palettes theme)) (0.3, 0.4) 0.5 false 0 (1, 1.2, 0.2);
     Ornaments.mkProps mode 150 Ornaments.sphere
       (Scene.pball (Scene.palettes theme)) (0.15, 0.25) 0.4 false 0 (1, 1, 1)].
Proof. destruct theme; reflexivity. Qed.

(** Whatever the theme, every ornament field the scene mounts has a
    positive count, a palette that is not empty, a positive weight and
    scale bounds 0 < min < max: a field whose count is 0 in the theme is
    not mounted at all (5 fields in the icy theme, 7 otherwise). *)
Theorem scene_ornament_fields_are_well_formed (mode : string) (theme : Theme) :
  Forall (fun p =>
            (0 < Ornaments.count p)%nat /\
            Ornaments.colorPalette p <> [] /\
            0 < Ornaments.weight p /\
            0 < fst (Ornaments.scaleRange p) < snd (Ornaments.scaleRange p) /\
            Ornaments.mode p = mode)
    (Scene.ornamentFields mode theme) /\
  List.length (Scene.ornamentFields mode theme) =
    (if Scene.isIcy theme then 5 else 7)%nat.
Proof.
  rewrite ornamentFields_cases.
  destruct theme; cbn [Scene.isIcy Scene.palettes Scene.pbox Scene.pdrum
                         Scene.pcane Scene.pbell Scene.ppine Scene.pflat
                         Scene.pball Scene.pstars];
    (split; [ | reflexivity ]);
    repeat (apply Forall_cons; split;
            [ cbn [Ornaments.count Ornaments.colorPalette Ornaments.weight
                     Ornaments.scaleRange Ornaments.mode fst snd];
              repeat split; try lia; try lra; try discriminate | ]);
    apply Forall_nil_2.
Qed.

Lemma scene_fields_weights (mode : string) (theme : Theme) :
  Forall (fun p => 0 < Ornaments.weight p) (Scene.ornamentFields mode theme).
Proof.
  rewrite ornamentFields_cases.
  destruct theme; cbn [Scene.isIcy];
    repeat (apply Forall_cons; split; [ cbn [Ornaments.weight]; lra | ]);
    apply Forall_nil_2.
Qed.

Lemma components_well_configured (theme : Theme) (photos : list string) :
  Forall Scene.well_configured (Scene.components theme photos).
Proof.
  unfold Scene.components.
  repeat (apply Forall_app; split).
  - destruct theme; repeat constructor.
  - repeat constructor.
  - apply Forall_map.
    exact (scene_fields_weights "" theme).
  - apply Forall_map. apply Forall_forall. intros x _. exact I.
  - repeat constructor.
Qed.

(** One frame of the whole scene, in any theme and with any photos, keeps
    every component's progress in [0, 1] when the frame is shorter than a
    second, and mounts or unmounts nothing. *)
Theorem scene_frame_keeps_unit_interval
    (theme : Theme) (photos : list string) (m : TreeMode) (delta : R)
    (ps : list (Scene.Component * R)) :
  0 < delta < 1 ->
  map fst ps = Scene.components theme photos ->
  Forall (fun cp => 0 <= snd cp <= 1) ps ->
  Forall (fun cp => 0 <= snd cp <= 1) (App.frame m delta ps) /\
  map fst (App.frame m delta ps) = map fst ps.
Proof.
  intros Hd Hcs Hps.
  pose proof (components_well_configured theme photos) as Hwc.
  rewrite <- Hcs in Hwc. clear Hcs.
  unfold App.frame. split.
  - induction ps as [ | [c p] ps IH ]; cbn [map]; [ constructor | ].
    apply Forall_cons in Hps as [Hp Hps].
    cbn [map] in Hwc. apply Forall_cons in Hwc as [Hc Hwc].
    apply Forall_cons. split; [ | apply IH; assumption ].
    cbn [fst snd] in *.
    apply tick_unit; [ exact Hc | | exact Hp ].
    split; [ lra | destruct c; try exact I; lra ].
  - rewrite map_map. cbn [fst]. reflexivity.
Qed.

Lemma scene_frame_keeps_unit_interval_witness :
  Forall (fun cp => 0 <= snd cp <= 1)
    (App.frame FORMED (/ 60)
       (map (fun c => (c, 0)) (Scene.components SNOWY ["a"]%string))) /\
  map fst (App.frame FORMED (/ 60)
             (map (fun c => (c, 0)) (Scene.components SNOWY ["a"]%string))) =
  map fst (map (fun c => (c, 0)) (Scene.components SNOWY ["a"]%string)).
Proof.
  apply (scene_frame_keeps_unit_interval SNOWY ["a"]%string FORMED (/ 60)
           (map (fun c => (c, 0)) (Scene.components SNOWY ["a"]%string))).
  - lra.
  - rewrite map_map. cbn [fst]. apply map_id.
  - apply Forall_map. apply Forall_forall. intros c _. cbn [snd]. lra.
Defined.

(** ** The decoration added to the interpolated position *)

(** What the frame adds to lerp(chaos, target, ease(progress)) is small and
    confined: an ornament is drawn exactly at the interpolated position up
    to a progress of 0.8 and within 0.05 of it, in height only, above; a
    foliage point is within 0.1 ease(progress) of it, in height only; a
    snow flake is within 0.2 of it on each axis. *)
Theorem decoration_offsets_are_bounded :
  (forall d time t,
     let base := Vec.lerpVectors (Ornaments.chaos d) (Ornaments.target d)
                   (easeOutCubic t) in
     (t <= 0.8 -> Ornaments.position d time t = base) /\
     vx (Ornaments.position d time t) = vx base /\
     vz (Ornaments.position d time t) = vz base /\
     Rabs (vy (Ornaments.position d time t) - vy base) <= 0.05) /\
  (forall chaos target aRandom uTime uProgress,
     0 <= uProgress <= 1 ->
     let base := GLSL.mix chaos target (easeOutCubic uProgress) in
     vx (Foliage.position chaos target aRandom uTime uProgress) = vx base /\
     vz (Foliage.position chaos target aRandom uTime uProgress) = vz base /\
     Rabs (vy (Foliage.position chaos target aRandom uTime uProgress) - vy base)
       <= 0.1 * easeOutCubic uProgress) /\
  (forall chaos target aRandom uTime uProgress,
     let base := GLSL.mix chaos target (easeOutCubic uProgress) in
     Rabs (vx (Snow.position chaos target aRandom uTime uProgress) - vx base)
       <= 0.2 /\
     Rabs (vy (Snow.position chaos target aRandom uTime uProgress) - vy base)
       <= 0.2 /\
     Rabs (vz (Snow.position chaos target aRandom uTime uProgress) - vz base)
       <= 0.2).
Proof.
  split; [ | split ].
  - intros d time t. cbn zeta. unfold Ornaments.position.
    destruct (SIN_bound (time * 2 + Ornaments.phase d)) as [Hs0 Hs1].
    destruct (Rlt_dec 0.8 t) as [Hhigh | Hlow]; cbn [vx vy vz].
    + repeat split; try reflexivity; [ intro; lra | apply Rabs_le; lra ].
    + repeat split; try reflexivity. apply Rabs_le. lra.
  - intros chaos target aRandom uTime uProgress Hp. cbn zeta.
    unfold Foliage.position. cbn [vx vy vz].
    destruct (SIN_bound (uTime * 0.5 + aRandom * 10.0)) as [Hs0 Hs1].
    pose proof (easeOutCubic_unit uProgress Hp) as He.
    repeat split; try reflexivity. apply Rabs_le. nra.
  - intros chaos target aRandom uTime uProgress. cbn zeta.
    unfold Snow.position. cbn [vx vy vz].
    destruct (SIN_bound (uTime * 0.5 + aRandom * 10.0)) as [Hx0 Hx1].
    destruct (COS_bound (uTime * 0.3 + aRandom * 20.0)) as [Hy0 Hy1].
    destruct (SIN_bound (uTime * 0.4 + aRandom * 15.0)) as [Hz0 Hz1].
    repeat split; apply Rabs_le; lra.
Qed.
